(** * graphcore: the command-line base layer (src/clibase.h)

    A shallow embedding of [Cli] (token splitter, unsigned-integer
    validators, record reader, command lookup) and of [CliCommand]
    (status messages, [syntaxError], [readNodeset]), together with the
    part of the C library these functions call. *)

From Stdlib Require Import ZArith List String Ascii Bool Lia DecimalString.
Import ListNotations.

Local Open Scope string_scope.
Local Open Scope list_scope.
Local Open Scope Z_scope.

(* ================================================================= *)
(** ** The C library as used by clibase.h *)

Module C.

Definition NUL : ascii := "000"%char.
Definition LF : ascii := "010"%char.
Definition TAB : ascii := "009"%char.

(** The width of [unsigned long] is fixed by the ABI: 32 bits on ILP32
    and LLP64 targets, 64 bits on LP64 targets. *)
Inductive data_model := ILP32 | LP64.

Definition ULONG_MAX (m : data_model) : Z :=
  match m with
  | ILP32 => 2 ^ 32 - 1
  | LP64 => 2 ^ 64 - 1
  end.

Definition UINT32_MOD : Z := 2 ^ 32.

(** Conversion of an integer to [uint32_t] / [unsigned]. *)
Definition to_uint32 (v : Z) : Z := v mod UINT32_MOD.

(** A [char] array or a [std::string] holds arbitrary bytes; seen through
    a [const char *] it ends at its first NUL. *)
Fixpoint c_str (s : string) : string :=
  match s with
  | EmptyString => EmptyString
  | String c r => if Ascii.eqb c NUL then EmptyString else String c (c_str r)
  end.

Definition strlen (s : string) : nat := String.length (c_str s).

Definition code (c : ascii) : Z := Z.of_N (N_of_ascii c).

Definition isdigit (c : ascii) : bool := (48 <=? code c) && (code c <=? 57).

(** space, and the control characters \t \n \v \f \r *)
Definition isspace (c : ascii) : bool :=
  (code c =? 32) || ((9 <=? code c) && (code c <=? 13)).

(** [strchr(s, c)] for a character [c] other than NUL: is the result
    a non-null pointer? *)
Fixpoint strchr_aux (s : string) (c : ascii) : bool :=
  match s with
  | EmptyString => false
  | String d r => Ascii.eqb d c || strchr_aux r c
  end.

Definition strchr (s : string) (c : ascii) : bool := strchr_aux (c_str s) c.

(** *** strtoul *)

Definition digit_value (c : ascii) : option Z :=
  let n := code c in
  if (48 <=? n) && (n <=? 57) then Some (n - 48)
  else if (97 <=? n) && (n <=? 122) then Some (n - 97 + 10)
  else if (65 <=? n) && (n <=? 90) then Some (n - 65 + 10)
  else None.

Definition is_digit_in (base : Z) (c : ascii) : bool :=
  match digit_value c with
  | Some d => d <? base
  | None => false
  end.

(** The mathematical value of the longest prefix of [s] made of digits
    of [base], continuing from [acc]. *)
Fixpoint accumulate (base : Z) (acc : Z) (s : string) : Z :=
  match s with
  | EmptyString => acc
  | String c r =>
      match digit_value c with
      | Some d => if d <? base then accumulate base (acc * base + d) r else acc
      | None => acc
      end
  end.

Fixpoint skip_space (s : string) : string :=
  match s with
  | String c r => if isspace c then skip_space r else s
  | EmptyString => s
  end.

Definition is_x (c : ascii) : bool := (code c =? 120) || (code c =? 88).

(** An optional sign. *)
Definition take_sign (s : string) : bool * string :=
  match s with
  | String c r =>
      if code c =? 45 then (true, r)
      else if code c =? 43 then (false, r)
      else (false, s)
  | EmptyString => (false, s)
  end.

(** The base actually used and the digits to convert: with base 0 a
    leading 0x or 0X followed by a hexadecimal digit selects base 16, any
    other leading 0 selects base 8, and everything else is decimal; with
    base 16 the 0x prefix is optional. *)
Definition take_prefix (base : Z) (s : string) : Z * string :=
  match s with
  | String z (String x (String h r)) =>
      if (code z =? 48) && is_x x && is_digit_in 16 h
         && ((base =? 0) || (base =? 16))
      then (16, String h r)
      else if base =? 0 then (if code z =? 48 then 8 else 10, s)
      else (base, s)
  | String z _ =>
      if base =? 0 then (if code z =? 48 then 8 else 10, s) else (base, s)
  | EmptyString => (if base =? 0 then 10 else base, s)
  end.

(** [strtoul(nptr, 0, base)] as ISO C specifies it: white space is
    skipped, a sign is honoured, the digits are accumulated, a value that
    does not fit yields [ULONG_MAX], and a minus sign negates in the type
    [unsigned long]. *)
Definition strtoul (m : data_model) (nptr : string) (base : Z) : Z :=
  let s := skip_space (c_str nptr) in
  let '(neg, s) := take_sign s in
  let '(b, s) := take_prefix base s in
  let v := accumulate b 0 s in
  if ULONG_MAX m <? v then ULONG_MAX m
  else if neg then (- v) mod (ULONG_MAX m + 1)
  else v.

(** *** Streams *)

(** What the descriptor under a [FILE] delivers: bytes, and reads that
    fail with an error other than end-of-file. *)
Inductive input_event :=
| Byte (c : ascii)
| ReadError.

(** What every read returns once the pending events are used up: the
    end of the file, or an error again and again (a descriptor that was
    closed underneath, a directory, a device that went away). *)
Inductive stream_tail := EndOfFile | Broken.

Record FILE := mkFILE {
  pending : list input_event;
  tail : stream_tail;
  eof_ind : bool        (* the end-of-file indicator tested by feof *)
}.

Definition feof (f : FILE) : bool := eof_ind f.

Inductive scan_end :=
| Filled      (* a newline was stored, or the buffer is full *)
| Exhausted   (* no event is left *)
| Failed.     (* a read failed *)

Fixpoint fgets_scan (room : nat) (evs : list input_event)
  : string * scan_end * list input_event :=
  match room with
  | O => (EmptyString, Filled, evs)
  | S room' =>
      match evs with
      | [] => (EmptyString, Exhausted, [])
      | ReadError :: rest => (EmptyString, Failed, rest)
      | Byte c :: rest =>
          if Ascii.eqb c LF then (String c EmptyString, Filled, rest)
          else
            let '(s, e, rest') := fgets_scan room' rest in
            (String c s, e, rest')
      end
  end.

(** [fgets(buf, n, f)]: [None] is the null pointer, [Some s] the bytes
    stored in [buf] before the terminating NUL. *)
Definition fgets (n : nat) (f : FILE) : option string * FILE :=
  if eof_ind f then (None, f)
  else
    let '(s, e, rest) := fgets_scan (n - 1) (pending f) in
    match e with
    | Filled => (Some s, mkFILE rest (tail f) false)
    | Failed => (None, mkFILE rest (tail f) false)
    | Exhausted =>
        match tail f with
        | Broken => (None, mkFILE [] Broken false)
        | EndOfFile =>
            match s with
            | EmptyString => (None, mkFILE [] EndOfFile true)
            | _ => (Some s, mkFILE [] EndOfFile true)
            end
        end
    end.

(** *** Formatted output *)

Definition decimal (u : Z) : string :=
  NilZero.string_of_uint (N.to_uint (Z.to_N u)).

(** [snprintf] with one [unsigned] argument, for formats whose only
    conversions are [%u] and [%%]; every other character is copied. *)
Fixpoint format_u (fmt : string) (u : Z) : string :=
  match fmt with
  | EmptyString => EmptyString
  | String c r =>
      if code c =? 37 then
        match r with
        | String d r' =>
            if code d =? 117 then (decimal u ++ format_u r' u)%string
            else if code d =? 37 then String d (format_u r' u)
            else String c (format_u r u)
        | EmptyString => String c EmptyString
        end
      else String c (format_u r u)
  end.

(** The first [n] characters of [s]: what fits in a buffer. *)
Definition truncate (n : nat) (s : string) : string := substring 0 n s.

End C.

Import C.

(* ================================================================= *)
(** ** The environment of the program *)

(** [abi] fixes the width of [unsigned long]; [gettext] is the message
    catalogue behind the [_] macro. *)
Record Env := mkEnv {
  abi : data_model;
  gettext : string -> string
}.

(* ================================================================= *)
(** ** clibase.h *)

Definition SUCCESS_STR : string := "OK.".
Definition FAIL_STR : string := "FAILED!".
Definition ERROR_STR : string := "ERROR!".
Definition NONE_STR : string := "NONE.".

Definition nl : string := String LF EmptyString.

(** The text [cliMessage(str, x...)] assigns to [lastStatusMessage]: [str]
    and a space, then the formatted arguments [text] cut to what is left of
    the 2048-byte buffer. *)
Definition cliMessage (str : string) (text : string) : string :=
  let c := (str ++ " ")%string in
  let n := String.length c in
  (c ++ truncate (2048 - n - 1) text)%string.

Definition cliSuccess (text : string) : string := cliMessage SUCCESS_STR text.
Definition cliFailure (text : string) : string := cliMessage FAIL_STR text.
Definition cliError (text : string) : string := cliMessage ERROR_STR text.
Definition cliNone (text : string) : string := cliMessage NONE_STR text.

Inductive CommandStatus := CMD_SUCCESS | CMD_FAILURE | CMD_ERROR | CMD_NONE.

Inductive ReturnType := RT_NONE | RT_ARC_LIST | RT_NODE_LIST | RT_OTHER.

Definition ReturnType_eqb (a b : ReturnType) : bool :=
  match a, b with
  | RT_NONE, RT_NONE | RT_ARC_LIST, RT_ARC_LIST
  | RT_NODE_LIST, RT_NODE_LIST | RT_OTHER, RT_OTHER => true
  | _, _ => false
  end.

(** A command object: what its virtual member functions return, and its
    one data member. *)
Record CliCommand := mkCliCommand {
  getName : string;
  getSynopsis : string;
  getHelpText : string;
  getReturnType : ReturnType;
  lastStatusMessage : string
}.

Definition getStatusMessage (self : CliCommand) : string :=
  lastStatusMessage self.

Definition set_lastStatusMessage (self : CliCommand) (msg : string) : CliCommand :=
  mkCliCommand (getName self) (getSynopsis self) (getHelpText self)
               (getReturnType self) msg.

(** A command that overrides only [getName] and [getReturnType]. *)
Definition default_command (name : string) (rt : ReturnType) : CliCommand :=
  mkCliCommand name name ("Help text for " ++ name ++ ".")%string rt EmptyString.

Record Cli := mkCli {
  doQuit : bool;
  commands : list CliCommand
}.

Definition quit (cli : Cli) : Cli := mkCli true (commands cli).

(** [Cli::findCommand]: the loop over the index [i], an [unsigned] that
    wraps around at 2^32. The outer [None]: the loop is still running after
    [fuel] passes; the inner [None]: the null pointer. *)
Fixpoint findCommand_loop (fuel : nat) (cs : list CliCommand) (name : string)
    (i : Z) : option (option CliCommand) :=
  match fuel with
  | O => None
  | S fuel' =>
      if i <? Z.of_nat (List.length cs) then
        match nth_error cs (Z.to_nat i) with
        | Some c =>
            if String.eqb (getName c) name then Some (Some c)
            else findCommand_loop fuel' cs name (to_uint32 (i + 1))
        | None => None
        end
      else Some None
  end.

Definition findCommand (fuel : nat) (cli : Cli) (name : string)
  : option (option CliCommand) :=
  findCommand_loop fuel (commands cli) name 0.

(** [Cli::isValidUint] *)
Fixpoint all_digits (s : string) : bool :=
  match s with
  | EmptyString => true
  | String c r => if negb (isdigit c) then false else all_digits r
  end.

Definition isValidUint (s : string) : bool :=
  if (String.length s <? 1)%nat then false else all_digits s.

(** [Cli::splitString] *)
Definition DEFAULT_DELIM : string :=
  String " " (String LF (String TAB (String "," EmptyString))).

(** The first inner loop: [str] advances over delimiters. *)
Fixpoint skip_delim (delim : string) (str : string) : string :=
  match str with
  | String c r => if strchr delim c then skip_delim delim r else str
  | EmptyString => str
  end.

(** The second inner loop: [str] advances over non-delimiters; the
    characters passed over and the position reached. *)
Fixpoint scan_word (delim : string) (str : string) : string * string :=
  match str with
  | String c r =>
      if strchr delim c then (EmptyString, str)
      else let '(w, str') := scan_word delim r in (String c w, str')
  | EmptyString => (EmptyString, str)
  end.

(** The [while(true)] loop; [None] when [fuel] iterations did not reach
    the [return]. *)
Fixpoint splitString_loop (fuel : nat) (delim : string) (str : string)
    (ret : list string) : option (list string) :=
  match fuel with
  | O => None
  | S fuel' =>
      match skip_delim delim str with
      | EmptyString => Some ret
      | String c r =>
          let '(w, str') := scan_word delim (String c r) in
          let ret := ret ++ [w] in
          match str' with
          | String _ str'' => splitString_loop fuel' delim str'' ret
          | EmptyString => splitString_loop fuel' delim str' ret
          end
      end
  end.

Definition splitString (s : string) (delim : string) : list string :=
  let str := c_str s in
  match splitString_loop (S (String.length str)) delim str [] with
  | Some ret => ret
  | None => []
  end.

(** [if( (n= strlen(line)) && line[n-1]=='\n' ) line[--n]= 0;] *)
Definition chomp (line : string) : string :=
  let n := strlen line in
  match String.get (n - 1) line with
  | Some c =>
      if (0 <? n)%nat && Ascii.eqb c LF then substring 0 (n - 1) line else line
  | None => line
  end.


(** The second loop of [getRedirFilename]: [s] advances to the first NUL
    or white-space character; the characters passed over. *)
Fixpoint redir_word (s : string) : string :=
  match s with
  | String c r => if isspace c then EmptyString else String c (redir_word r)
  | EmptyString => EmptyString
  end.

(** [Cli::getRedirFilename]: the string behind the returned pointer. The
    first loop skips white space; the byte on which the second loop stops is
    overwritten with NUL, which ends the returned string there. *)
Definition getRedirFilename (str : string) : string :=
  redir_word (skip_space (c_str str)).

Section Clibase.

Variable env : Env.

(** The [_] macro; the result is used as a [char *]. *)
Definition tr (s : string) : string := c_str (gettext env s).

(** [CliCommand::syntaxError], with what [std::cout] has received so far
    passed through. *)
Definition syntaxError (self : CliCommand) (cout : string) : CliCommand * string :=
  let msg := (FAIL_STR ++ tr " Syntax: " ++ getSynopsis self ++ nl)%string in
  let self := set_lastStatusMessage self msg in
  if ReturnType_eqb (getReturnType self) RT_OTHER
  then (self, (cout ++ lastStatusMessage self)%string)
  else (self, cout).

(** [Cli::parseUint] *)
Definition parseUint (str : string) : Z := to_uint32 (strtoul (abi env) str 0).

(** [Cli::isValidNodeID] *)
Definition isValidNodeID (s : string) : bool :=
  isValidUint s && negb (parseUint s =? 0).

(** The loop over [strings] in [readUintRecord]. *)
Fixpoint push_uints (strings : list string) (ret : list Z) : bool * list Z :=
  match strings with
  | [] => (true, ret)
  | s :: rest =>
      if negb (isValidUint s) then (false, ret)
      else push_uints rest (ret ++ [parseUint s])
  end.

(** [Cli::readUintRecord]: the returned flag, the vector [ret] and the
    stream afterwards. *)
Definition readUintRecord (f : FILE) (ret : list Z) : bool * list Z * FILE :=
  match fgets 1024 f with
  | (None, f') => if negb (feof f') then (false, ret, f') else (true, ret, f')
  | (Some buf, f') =>
      let line := chomp buf in
      let strings := splitString line DEFAULT_DELIM in
      if (0 <? strlen line)%nat && (List.length strings =? 0)%nat
      then (false, ret, f')
      else let '(b, ret') := push_uints strings ret in (b, ret', f')
  end.

(** [Cli::readNodeIDRecord] *)
Fixpoint has_zero (ret : list Z) : bool :=
  match ret with
  | [] => false
  | i :: rest => if i =? 0 then true else has_zero rest
  end.

Definition readNodeIDRecord (f : FILE) (ret : list Z) : bool * list Z * FILE :=
  let '(b, ret', f') := readUintRecord f ret in
  if negb b then (false, ret', f')
  else if has_zero ret' then (false, ret', f')
  else (true, ret', f').

(** *** CliCommand::readNodeset *)

(** The variables of the loop. [assigned] is every value given to
    [lastStatusMessage] since the call began, oldest first. *)
Record loop_state := mkState {
  self : CliCommand;
  inFile : FILE;
  dataset : list (list Z);
  ok : bool;
  lineno : Z;
  assigned : list string
}.

Definition report (st : loop_state) (msg : string) : loop_state :=
  mkState (set_lastStatusMessage (self st) msg) (inFile st) (dataset st)
          (ok st) (lineno st) (assigned st ++ [msg]).

(** [cliError(_("error reading data set (line %u)\n"), lineno)] *)
Definition line_error (lineno : Z) : string :=
  cliError (format_u (tr ("error reading data set (line %u)" ++ nl)) lineno).

(** The two branches that end in [ok= false]. *)
Definition fail_line (st : loop_state) (f' : FILE) : loop_state :=
  let st := if ok st then report st (line_error (lineno st)) else st in
  mkState (self st) f' (dataset st) false (to_uint32 (lineno st + 1)) (assigned st).

Inductive step_result :=
| Continue (st : loop_state)
| Return (st : loop_state).

(** One pass through the body of the [for] loop, including its
    [lineno++]. *)
Definition readNodeset_body (expectedSize : Z) (st : loop_state) : step_result :=
  let '(b, record, f') := readNodeIDRecord (inFile st) [] in
  if negb b then Continue (fail_line st f')
  else if (List.length record =? 0)%nat then
    Return (mkState (self st) f' (dataset st) (ok st) (lineno st) (assigned st))
  else if negb (Z.of_nat (List.length record) =? expectedSize) then
    Continue (fail_line st f')
  else
    Continue (mkState (self st) f'
                      (if ok st then dataset st ++ [record] else dataset st)
                      (ok st) (to_uint32 (lineno st + 1)) (assigned st)).

(** [None]: the loop is still running after [fuel] passes. *)
Fixpoint readNodeset_loop (fuel : nat) (expectedSize : Z) (st : loop_state)
  : option loop_state :=
  match fuel with
  | O => None
  | S fuel' =>
      match readNodeset_body expectedSize st with
      | Return st' => Some st'
      | Continue st' => readNodeset_loop fuel' expectedSize st'
      end
  end.

(** The state in which the loop is entered: [ok= true],
    [cliSuccess("\n")], [lineno= 1]. *)
Definition readNodeset_init (this : CliCommand) (f : FILE)
    (ds : list (list Z)) : loop_state :=
  report (mkState this f ds true 1 []) (cliSuccess nl).

(** The returned [bool] is the field [ok] of the final state, the
    vector behind the reference [dataset] its field [dataset]. *)
Definition readNodeset (fuel : nat) (this : CliCommand) (f : FILE)
    (ds : list (list Z)) (expectedSize : Z) : option loop_state :=
  readNodeset_loop fuel expectedSize (readNodeset_init this f ds).

End Clibase.

(* ================================================================= *)
(** ** Vocabulary of the properties *)

(** A stream that delivers the bytes of [s]. *)
Definition bytes (s : string) : list input_event :=
  map Byte (list_ascii_of_string s).

(** The text made of the lines [ls], each ended by a newline. *)
Fixpoint unlines (ls : list string) : string :=
  match ls with
  | [] => EmptyString
  | l :: rest => (l ++ nl ++ unlines rest)%string
  end.

(** A stream on which every read fails with an error that is not
    end-of-file. *)
Definition broken_stream : FILE := mkFILE [] Broken false.

(** The environment used for the concrete runs: an LP64 target with no
    message catalogue installed. *)
Definition lp64_C : Env := mkEnv LP64 (fun s => s).

(** Concrete inputs. *)
Definition add_first : CliCommand := mkCliCommand "add" "add A" "first" RT_NONE EmptyString.
Definition add_second : CliCommand := mkCliCommand "add" "add B" "second" RT_OTHER EmptyString.
Definition two_adds : Cli :=
  mkCli false [default_command "quit" RT_OTHER; add_first; add_second].

Definition separators_only : string :=
  String " " (String "," (String TAB (String " " nl))).

Definition stream_of (text : string) : FILE := mkFILE (bytes text) EndOfFile false.

(** The state in which [readNodeset] returns from the lines 1 2 3 and
    an empty line read with expected size 2. *)
Definition too_wide_result : loop_state :=
  mkState (set_lastStatusMessage (default_command "add-arcs" RT_NONE)
                                 (line_error lp64_C 1))
          (stream_of EmptyString) [] false 2
          [cliSuccess nl; line_error lp64_C 1].

(** A stream that delivers the line 1 2 and the byte 3, and then fails on
    every read. *)
Definition breaking_stream : FILE :=
  mkFILE (bytes ("1 2" ++ nl ++ "3")) Broken false.

(** Does a status message carry the ERROR prefix? *)
Definition is_error_status (msg : string) : bool :=
  String.prefix (ERROR_STR ++ " ")%string msg.

(** The characters that separate tokens inside a line. *)
Definition separator (c : ascii) : Prop := c = " "%char \/ c = TAB \/ c = ","%char.

(** The range of node IDs. *)
Definition node_id (v : Z) : Prop := 1 <= v <= 2 ^ 32 - 1.

(** The first command of [cs], in list order, named [name]. *)
Fixpoint first_named (cs : list CliCommand) (name : string) : option CliCommand :=
  match cs with
  | [] => None
  | c :: rest => if String.eqb (getName c) name then Some c else first_named rest name
  end.

(** The value of a string of decimal digits read in base 10. *)
Fixpoint decimal_value_from (acc : Z) (s : string) : Z :=
  match s with
  | EmptyString => acc
  | String c r => decimal_value_from (acc * 10 + (code c - 48)) r
  end.

Definition decimal_value (s : string) : Z := decimal_value_from 0 s.

(** Does [s] begin with the digit 0? *)
Definition leading_zero (s : string) : bool :=
  match s with
  | String c _ => code c =? 48
  | EmptyString => false
  end.

Definition chars (s : string) : list ascii := list_ascii_of_string s.

(** The tokens [toks] with the character [d] between neighbours. *)
Fixpoint join (d : ascii) (toks : list string) : string :=
  match toks with
  | [] => EmptyString
  | [t] => t
  | t :: rest => (t ++ String d (join d rest))%string
  end.

(** A token as [splitString] can produce one for [delim]: not empty, and
    free of delimiters and of NUL. *)
Definition token_for (delim : string) (t : string) : Prop :=
  t <> EmptyString /\
  Forall (fun c => strchr delim c = false /\ c <> NUL) (chars t).

(** How the dataset reader treats a line. *)
Inductive line_kind :=
| Terminator
| Malformed
| Wellformed (record : list Z).

(** [lineno] after [k] passes of the loop. *)
Fixpoint advance (k : nat) (lineno : Z) : Z :=
  match k with
  | O => lineno
  | S k' => advance k' (to_uint32 (lineno + 1))
  end.

(** The position of the first malformed line. *)
Fixpoint first_malformed (lines : list line_kind) : option nat :=
  match lines with
  | [] => None
  | Malformed :: _ => Some O
  | _ :: rest => option_map S (first_malformed rest)
  end.

(** The records of the lines before the first malformed one. *)
Fixpoint leading_records (lines : list line_kind) : list (list Z) :=
  match lines with
  | Wellformed r :: rest => r :: leading_records rest
  | _ => []
  end.

Section Blocks.

Variable env : Env.

(** The kind of the next line of [f] for records of [expectedSize]
    numbers, and the stream after it. *)
Definition classify (expectedSize : Z) (f : FILE) : line_kind * FILE :=
  let '(b, record, f') := readNodeIDRecord env f [] in
  if negb b then (Malformed, f')
  else if (List.length record =? 0)%nat then (Terminator, f')
  else if Z.of_nat (List.length record) =? expectedSize then (Wellformed record, f')
  else (Malformed, f').

(** [block w f lines f_end]: read from [f], the lines of kinds [lines]
    are followed by a terminator, after which the stream is [f_end]. *)
Inductive block (w : Z) : FILE -> list line_kind -> FILE -> Prop :=
| block_end : forall f f_end,
    classify w f = (Terminator, f_end) -> block w f [] f_end
| block_line : forall f k f' lines f_end,
    classify w f = (k, f') -> k <> Terminator ->
    block w f' lines f_end -> block w f (k :: lines) f_end.

(** The state in which the loop returns when it is entered in [st] at
    the start of a block of [lines] that ends at [f_end]. *)
Definition block_result (lines : list line_kind) (f_end : FILE)
    (st : loop_state) : loop_state :=
  let n := advance (List.length lines) (lineno st) in
  if ok st then
    match first_malformed lines with
    | Some i =>
        let msg := line_error env (advance i (lineno st)) in
        mkState (set_lastStatusMessage (self st) msg) f_end
                (dataset st ++ leading_records lines) false n
                (assigned st ++ [msg])
    | None =>
        mkState (self st) f_end (dataset st ++ leading_records lines) true n
                (assigned st)
    end
  else mkState (self st) f_end (dataset st) false n (assigned st).

(** What holds of the status messages throughout a call of [readNodeset]
    on the command [this]: either no error was met and the status is the
    initial success message, or one ERROR message followed it and is the
    status. The other members of the command are untouched. *)
Definition status_inv (this : CliCommand) (st : loop_state) : Prop :=
  getName (self st) = getName this /\
  getSynopsis (self st) = getSynopsis this /\
  getHelpText (self st) = getHelpText this /\
  getReturnType (self st) = getReturnType this /\
  ((ok st = true /\ assigned st = [cliSuccess nl] /\
    lastStatusMessage (self st) = cliSuccess nl) \/
   (ok st = false /\ exists k,
      assigned st = [cliSuccess nl; line_error env k] /\
      lastStatusMessage (self st) = line_error env k)).

End Blocks.

(* ================================================================= *)
(** ** Properties *)

(** *** Integers *)

Lemma to_uint32_range (v : Z) : 0 <= to_uint32 v <= 2 ^ 32 - 1.
Proof.
  unfold to_uint32, UINT32_MOD.
  pose proof (Z.mod_pos_bound v (2 ^ 32) ltac:(lia)). lia.
Qed.

Lemma to_uint32_small (v : Z) : 0 <= v < 2 ^ 32 -> to_uint32 v = v.
Proof. intros H. unfold to_uint32, UINT32_MOD. now apply Z.mod_small. Qed.

Lemma parseUint_range (env : Env) (s : string) :
  0 <= parseUint env s <= 2 ^ 32 - 1.
Proof. apply to_uint32_range. Qed.

Lemma advance_succ (k : nat) (n : Z) :
  advance (S k) n = to_uint32 (advance k n + 1).
Proof.
  revert n. induction k as [|k IH]; intros n.
  - reflexivity.
  - change (advance (S (S k)) n) with (advance (S k) (to_uint32 (n + 1))).
    rewrite IH. reflexivity.
Qed.

Lemma advance_from_one (k : nat) : advance k 1 = to_uint32 (Z.of_nat k + 1).
Proof.
  induction k as [|k IH].
  - reflexivity.
  - rewrite advance_succ, IH. unfold to_uint32.
    rewrite Zplus_mod_idemp_l. f_equal. lia.
Qed.

(** *** The command registry *)

Lemma first_named_spec (cs : list CliCommand) (name : string) :
  match first_named cs name with
  | Some c =>
      exists i, nth_error cs i = Some c /\ getName c = name /\
        forall j c', (j < i)%nat -> nth_error cs j = Some c' -> getName c' <> name
  | None => forall c, In c cs -> getName c <> name
  end.
Proof.
  induction cs as [|c cs IH]; simpl.
  - intros c [].
  - destruct (String.eqb (getName c) name) eqn:E.
    + exists O. repeat split.
      * now apply String.eqb_eq.
      * intros j c' Hj. lia.
    + apply String.eqb_neq in E.
      destruct (first_named cs name) as [d|].
      * destruct IH as (i & Hi & Hn & Hmin).
        exists (S i). repeat split; trivial.
        intros [|j] c' Hj Hc'; simpl in Hc'.
        -- now inversion Hc'; subst.
        -- apply (Hmin j); trivial. lia.
      * intros d [->|Hd]; auto.
Qed.

Lemma skipn_nth_error {A : Type} (l : list A) (i : nat) (x : A) :
  nth_error l i = Some x -> skipn i l = x :: skipn (S i) l.
Proof.
  revert l. induction i as [|i IH]; intros [|y l] H; simpl in H; try discriminate.
  - now inversion H.
  - change (skipn (S i) (y :: l)) with (skipn i l). rewrite (IH l H). reflexivity.
Qed.

Lemma findCommand_loop_skipn (name : string) (cs : list CliCommand) :
  Z.of_nat (List.length cs) < 2 ^ 32 ->
  forall k i, (i + k = List.length cs)%nat ->
    findCommand_loop (S k) cs name (Z.of_nat i)
    = Some (first_named (skipn i cs) name).
Proof.
  intros Hsz. induction k as [|k IH]; intros i Hi.
  - assert (i = List.length cs) by lia. subst i.
    cbn [findCommand_loop]. rewrite Z.ltb_irrefl, skipn_all. reflexivity.
  - cbn [findCommand_loop].
    assert (Hlt : (i < List.length cs)%nat) by lia.
    replace (Z.of_nat i <? Z.of_nat (List.length cs)) with true
      by (symmetry; apply Z.ltb_lt; lia).
    rewrite Nat2Z.id.
    destruct (nth_error cs i) as [c|] eqn:Hc.
    2:{ apply nth_error_None in Hc. lia. }
    pose proof (skipn_nth_error cs i c Hc) as Hskip.
    rewrite Hskip. cbn [first_named].
    destruct (String.eqb (getName c) name); [reflexivity|].
    replace (to_uint32 (Z.of_nat i + 1)) with (Z.of_nat (S i)).
    2:{ rewrite to_uint32_small; lia. }
    apply IH. lia.
Qed.

(** C10. [findCommand(name)] returns, for a registry of fewer than 2^32
    commands, the first command in registration order whose name equals
    [name] exactly, and the null pointer when no registered command has that
    name; of two commands with the same name the earlier one is found. *)
Theorem findCommand_first_registered (cli : Cli) (name : string) :
  Z.of_nat (List.length (commands cli)) < 2 ^ 32 ->
  exists r,
    findCommand (S (List.length (commands cli))) cli name = Some r /\
    match r with
    | Some c =>
        exists i, nth_error (commands cli) i = Some c /\ getName c = name /\
          forall j c', (j < i)%nat -> nth_error (commands cli) j = Some c' ->
                       getName c' <> name
    | None => forall c, In c (commands cli) -> getName c <> name
    end.
Proof.
  intros Hsz. exists (first_named (commands cli) name). split.
  - unfold findCommand.
    apply (findCommand_loop_skipn name (commands cli) Hsz (List.length (commands cli)) O).
    reflexivity.
  - apply first_named_spec.
Qed.

Lemma findCommand_first_registered_witness :
  findCommand 4 two_adds "add" = Some (Some add_first) /\
  findCommand 4 two_adds "Add" = Some None /\
  exists r, findCommand 4 two_adds "add" = Some r /\
    match r with
    | Some c =>
        exists i, nth_error (commands two_adds) i = Some c /\ getName c = "add" /\
          forall j c', (j < i)%nat -> nth_error (commands two_adds) j = Some c' ->
                       getName c' <> "add"
    | None => forall c, In c (commands two_adds) -> getName c <> "add"
    end.
Proof.
  split; [reflexivity|].
  split; [reflexivity|].
  apply (findCommand_first_registered two_adds "add").
  simpl. lia.
Defined.

(** *** Status messages *)

Lemma length_append (s t : string) :
  String.length (s ++ t) = (String.length s + String.length t)%nat.
Proof. induction s as [|c s IH]; simpl; [reflexivity|now rewrite IH]. Qed.

Lemma append_nonempty_neq (s t : string) : t <> EmptyString -> (s ++ t)%string <> s.
Proof.
  intros Ht H. apply (f_equal String.length) in H.
  rewrite length_append in H.
  destruct t; [now apply Ht|]. simpl in H. lia.
Qed.

Lemma append_assoc (a b c : string) : ((a ++ b) ++ c = a ++ (b ++ c))%string.
Proof. induction a as [|x a IH]; simpl; [reflexivity|now rewrite IH]. Qed.

Lemma prefix_append (p s : string) : String.prefix p (p ++ s)%string = true.
Proof.
  induction p as [|c p IH]; simpl.
  - now destruct s.
  - destruct (ascii_dec c c); [assumption|contradiction].
Qed.

Lemma cliError_is_error (text : string) : is_error_status (cliError text) = true.
Proof.
  unfold is_error_status, cliError, cliMessage. apply prefix_append.
Qed.

Lemma cliSuccess_not_error (text : string) : is_error_status (cliSuccess text) = false.
Proof. reflexivity. Qed.

(** C8. [syntaxError] stores in [lastStatusMessage] a message that begins
    with the FAILURE prefix and contains the synopsis, and it writes that
    message to the standard output exactly when the return type of the
    command is [RT_OTHER]; for every other return type the output is left
    as it was. *)
Theorem syntaxError_records_and_emits (env : Env) (this : CliCommand) (cout : string) :
  let msg := (FAIL_STR ++ tr env " Syntax: " ++ getSynopsis this ++ nl)%string in
  let '(this', cout') := syntaxError env this cout in
  lastStatusMessage this' = msg /\
  String.prefix FAIL_STR msg = true /\
  (exists before after, msg = (before ++ getSynopsis this ++ after)%string) /\
  getReturnType this' = getReturnType this /\
  getSynopsis this' = getSynopsis this /\
  getName this' = getName this /\
  (getReturnType this = RT_OTHER -> cout' = (cout ++ msg)%string) /\
  (getReturnType this <> RT_OTHER -> cout' = cout) /\
  (cout' <> cout <-> getReturnType this = RT_OTHER).
Proof.
  intros msg. unfold syntaxError. fold msg.
  assert (Hne : msg <> EmptyString) by (unfold msg; discriminate).
  cbn [getReturnType set_lastStatusMessage lastStatusMessage].
  destruct (getReturnType this) eqn:Hrt; cbn [ReturnType_eqb];
    cbn [set_lastStatusMessage lastStatusMessage getReturnType getSynopsis getName];
    (split; [reflexivity|]);
    (split; [apply prefix_append|]);
    (split; [exists (FAIL_STR ++ tr env " Syntax: ")%string, nl; unfold msg;
             now rewrite append_assoc|]);
    repeat (split; [reflexivity|]);
    repeat split; try discriminate; try congruence; intros.
  all: try (exfalso; congruence).
  now apply append_nonempty_neq.
Qed.

(** *** Validators *)

Lemma isValidNodeID_unfold (env : Env) (s : string) :
  isValidNodeID env s = true <-> isValidUint s = true /\ parseUint env s <> 0.
Proof.
  unfold isValidNodeID. rewrite andb_true_iff, negb_true_iff, Z.eqb_neq.
  reflexivity.
Qed.

Lemma zero_is_uint_not_node (env : Env) :
  isValidUint "0" = true /\ isValidNodeID env "0" = false.
Proof. destruct env as [[|] g]; split; reflexivity. Qed.

(** C3. The token 08 is made of decimal digits only and its base-10 value
    is 8, yet [parseUint], which calls [strtoul] with base 0, reads the
    leading 0 as the octal prefix, stops at the 8 and yields 0: so
    [isValidNodeID] rejects a token that [isValidUint] accepts and whose
    decimal value is not zero. *)
Theorem isValidNodeID_rejects_leading_zero (env : Env) :
  isValidUint "08" = true /\
  to_uint32 (strtoul (abi env) "08" 10) = 8 /\
  parseUint env "08" = 0 /\
  isValidNodeID env "08" = false.
Proof. destruct env as [[|] g]; repeat split; reflexivity. Qed.

(** *** Reading from a stream *)

Lemma fgets_scan_consumes (room : nat) (evs : list input_event) :
  forall s e rest, fgets_scan room evs = (s, e, rest) ->
    match e with
    | Filled => (0 < room)%nat -> (List.length rest < List.length evs)%nat
    | Failed => (List.length rest < List.length evs)%nat
    | Exhausted => rest = [] /\ (s <> EmptyString -> evs <> [])
    end.
Proof.
  revert evs. induction room as [|room IH]; intros evs s e rest H; simpl in H.
  - injection H as <- <- <-. lia.
  - destruct evs as [|[c|] evs].
    + injection H as <- <- <-. split; [reflexivity|congruence].
    + destruct (Ascii.eqb c LF).
      * injection H as <- <- <-. simpl. lia.
      * destruct (fgets_scan room evs) as [[s1 e1] r1] eqn:E.
        injection H as <- <- <-. specialize (IH evs s1 e1 r1 E).
        destruct e1; simpl.
        -- intros _. destruct room as [|room'].
           ++ simpl in E. injection E as <- <-. lia.
           ++ specialize (IH ltac:(lia)). lia.
        -- destruct IH as [-> _]. split; [reflexivity|discriminate].
        -- lia.
    + injection H as <- <- <-. simpl. lia.
Qed.

(** At a stream that ends with end-of-file, [fgets] either reports the
    end of the file or uses up at least one pending event. *)
Lemma fgets_progress (f : FILE) :
  tail f = EndOfFile ->
  forall r f', fgets 1024 f = (r, f') ->
    tail f' = EndOfFile /\
    ((r = None /\ feof f' = true) \/
     (List.length (pending f') < List.length (pending f))%nat).
Proof.
  intros Ht r f' H. unfold fgets in H.
  destruct (eof_ind f) eqn:Ee.
  - inversion H; subst. split; [assumption|]. left. split; [reflexivity|exact Ee].
  - destruct (fgets_scan (1024 - 1) (pending f)) as [[s e] rest] eqn:Es.
    pose proof (fgets_scan_consumes _ _ _ _ _ Es) as Hc.
    destruct e.
    + inversion H; subst. simpl. split; [assumption|]. right. apply Hc. simpl. lia.
    + rewrite Ht in H. destruct Hc as [-> Hne].
      destruct s as [|c s].
      * inversion H; subst. simpl. split; [reflexivity|]. left. now split.
      * inversion H; subst. simpl. split; [reflexivity|]. right.
        destruct (pending f); [exfalso; apply Hne; [discriminate|reflexivity]|].
        simpl. lia.
    + inversion H; subst. simpl. split; [assumption|]. now right.
Qed.

(** On a stream whose every read fails, [fgets] returns the null pointer
    without setting the end-of-file indicator, and the stream stays as it
    is. *)
Lemma fgets_broken : fgets 1024 broken_stream = (None, broken_stream).
Proof. reflexivity. Qed.

Section RecordReader.

Variable env : Env.

Lemma push_uints_spec (strings : list string) :
  forall ret b ret', push_uints env strings ret = (b, ret') ->
    exists vals, ret' = ret ++ vals /\
                 Forall (fun v => 0 <= v <= 2 ^ 32 - 1) vals /\
                 (b = true -> vals = map (parseUint env) strings).
Proof.
  induction strings as [|s strings IH]; intros ret b ret' H; simpl in H.
  - inversion H; subst. exists []. rewrite app_nil_r. repeat split; auto.
  - destruct (isValidUint s); simpl in H.
    + destruct (IH _ _ _ H) as (vals & -> & Hv & Hb).
      exists (parseUint env s :: vals). rewrite <- app_assoc. repeat split.
      * constructor; [apply parseUint_range|assumption].
      * intros Hbt. simpl. now rewrite (Hb Hbt).
    + inversion H; subst. exists []. rewrite app_nil_r.
      repeat split; auto; discriminate.
Qed.

(** The scan stops at the first token that is not a valid unsigned
    integer, with the values of the tokens before it appended. *)
Lemma push_uints_stops (pre : list string) (bad : string) (post : list string) :
  Forall (fun s => isValidUint s = true) pre ->
  isValidUint bad = false ->
  forall ret, push_uints env (pre ++ bad :: post) ret
              = (false, ret ++ map (parseUint env) pre).
Proof.
  intros Hpre Hbad. induction Hpre as [|s pre Hs Hpre IH]; intros ret; simpl.
  - rewrite Hbad. simpl. now rewrite app_nil_r.
  - rewrite Hs. simpl. rewrite IH, <- app_assoc. reflexivity.
Qed.

Lemma readUintRecord_spec (f : FILE) (ret : list Z) :
  forall b ret' f', readUintRecord env f ret = (b, ret', f') ->
    f' = snd (fgets 1024 f) /\
    (fst (fgets 1024 f) = None -> ret' = ret /\ b = feof f') /\
    exists vals, ret' = ret ++ vals /\ Forall (fun v => 0 <= v <= 2 ^ 32 - 1) vals.
Proof.
  intros b ret' f' H. unfold readUintRecord in H.
  destruct (fgets 1024 f) as [[buf|] f1]; simpl.
  - destruct ((0 <? strlen (chomp buf))%nat &&
              (List.length (splitString (chomp buf) DEFAULT_DELIM) =? 0)%nat).
    + inversion H; subst. repeat split; try discriminate.
      exists []. now rewrite app_nil_r.
    + destruct (push_uints env _ ret) as [b1 r1] eqn:E.
      inversion H; subst. repeat split; try discriminate.
      destruct (push_uints_spec _ _ _ _ E) as (vals & ? & ? & _). now exists vals.
  - destruct (feof f1) eqn:Ef; simpl in H; inversion H; subst;
      repeat split; auto; exists []; now rewrite app_nil_r.
Qed.

Lemma has_zero_false (l : list Z) :
  has_zero l = false -> Forall (fun v => v <> 0) l.
Proof.
  induction l as [|v l IH]; simpl; intros H; [constructor|].
  destruct (v =? 0) eqn:E; [discriminate|].
  constructor; [now apply Z.eqb_neq|auto].
Qed.

Lemma readNodeIDRecord_spec (f : FILE) :
  forall b record f', readNodeIDRecord env f [] = (b, record, f') ->
    f' = snd (fgets 1024 f) /\
    (fst (fgets 1024 f) = None -> record = [] /\ b = feof f') /\
    (b = true -> Forall node_id record).
Proof.
  intros b record f' H. unfold readNodeIDRecord in H.
  destruct (readUintRecord env f []) as [[b1 r1] f1] eqn:E.
  destruct (readUintRecord_spec _ _ _ _ _ E) as (Hf & Hnull & vals & Hv & Hr).
  simpl in Hv. subst r1.
  assert (Hrf : record = vals /\ f' = f1).
  { destruct b1; simpl in H; [destruct (has_zero vals)|];
      injection H as <- <- <-; auto. }
  destruct Hrf as [-> ->].
  assert (Hnull' : fst (fgets 1024 f) = None -> vals = [] /\ b = feof f1).
  { intros Hn. destruct (Hnull Hn) as [-> ->].
    destruct (feof f1); simpl in H; injection H as <-; split; reflexivity. }
  split; [exact Hf|split; [exact Hnull'|]].
  intros ->. destruct b1; simpl in H; [|discriminate].
  destruct (has_zero vals) eqn:Ez; [discriminate|].
  apply has_zero_false in Ez.
  rewrite Forall_forall in *. intros v Hin. unfold node_id.
  specialize (Hr v Hin). specialize (Ez v Hin). lia.
Qed.

End RecordReader.

(** *** The dataset reader *)

Section DatasetReader.

Variable env : Env.

Lemma inFile_fail_line (st : loop_state) (f' : FILE) :
  inFile (fail_line env st f') = f'.
Proof. unfold fail_line. now destruct (ok st). Qed.

Lemma dataset_fail_line (st : loop_state) (f' : FILE) :
  dataset (fail_line env st f') = dataset st.
Proof. unfold fail_line. now destruct (ok st). Qed.

(** The branch taken by the body of the loop is the kind of the line. *)
Lemma readNodeset_body_classify (w : Z) (st : loop_state) :
  readNodeset_body env w st =
  match classify env w (inFile st) with
  | (Terminator, f') =>
      Return (mkState (self st) f' (dataset st) (ok st) (lineno st) (assigned st))
  | (Malformed, f') => Continue (fail_line env st f')
  | (Wellformed record, f') =>
      Continue (mkState (self st) f'
                        (if ok st then dataset st ++ [record] else dataset st)
                        (ok st) (to_uint32 (lineno st + 1)) (assigned st))
  end.
Proof.
  unfold readNodeset_body, classify.
  destruct (readNodeIDRecord env (inFile st) []) as [[b record] f'].
  destruct b; simpl; [|reflexivity].
  destruct (List.length record =? 0)%nat; [reflexivity|].
  destruct (Z.of_nat (List.length record) =? w); reflexivity.
Qed.

Lemma classify_spec (w : Z) (f : FILE) :
  forall k f', classify env w f = (k, f') ->
    f' = snd (fgets 1024 f) /\
    (fst (fgets 1024 f) = None -> feof f' = true -> k = Terminator) /\
    (forall r, k = Wellformed r ->
               Forall node_id r /\ Z.of_nat (List.length r) = w).
Proof.
  intros k f' H. unfold classify in H.
  destruct (readNodeIDRecord env f []) as [[b record] f1] eqn:E.
  destruct (readNodeIDRecord_spec env _ _ _ _ E) as (Hf & Hnull & Hid).
  assert (f' = f1) as ->.
  { destruct b; simpl in H; [|now injection H].
    destruct (List.length record =? 0)%nat; [now injection H|].
    destruct (Z.of_nat (List.length record) =? w); now injection H. }
  split; [exact Hf|]. split.
  - intros Hn Hfe. destruct (Hnull Hn) as [-> ->]. rewrite Hfe in H.
    simpl in H. now injection H.
  - intros r ->. destruct b; simpl in H; [|discriminate].
    destruct (List.length record =? 0)%nat; [discriminate|].
    destruct (Z.of_nat (List.length record) =? w) eqn:Ew; [|discriminate].
    injection H as <-. split; [now apply Hid|now apply Z.eqb_eq].
Qed.

Lemma readNodeset_loop_more_fuel (w : Z) :
  forall n k st st', readNodeset_loop env n w st = Some st' ->
                     readNodeset_loop env (n + k) w st = Some st'.
Proof.
  induction n as [|n IH]; intros k st st' H; simpl in *; [discriminate|].
  destruct (readNodeset_body env w st); [now apply IH|assumption].
Qed.

(** On a stream that ends with end-of-file the loop returns: every pass
    that does not return uses up at least one pending event. *)
Lemma readNodeset_loop_returns (w : Z) :
  forall n st,
    tail (inFile st) = EndOfFile ->
    (List.length (pending (inFile st)) < n)%nat ->
    exists st', readNodeset_loop env n w st = Some st'.
Proof.
  induction n as [|n IH]; intros st Ht Hn; [lia|].
  cbn [readNodeset_loop]. rewrite readNodeset_body_classify.
  destruct (classify env w (inFile st)) as [k f'] eqn:Ec.
  destruct (classify_spec _ _ _ _ Ec) as (Hf & Hterm & _).
  destruct (fgets 1024 (inFile st)) as [r f1] eqn:Eg. simpl in Hf, Hterm. subst f1.
  destruct (fgets_progress _ Ht _ _ Eg) as (Ht' & Hprog).
  assert (Hdec : k <> Terminator ->
                 (List.length (pending f') < List.length (pending (inFile st)))%nat).
  { intros Hk. destruct Hprog as [[-> Hfe]|Hlt]; [|assumption].
    now elim Hk; apply Hterm. }
  destruct k as [| |record].
  - eexists. reflexivity.
  - apply IH; rewrite inFile_fail_line; [assumption|].
    specialize (Hdec ltac:(discriminate)). lia.
  - apply IH; cbn [inFile]; [assumption|].
    specialize (Hdec ltac:(discriminate)). lia.
Qed.

Theorem readNodeset_returns_at_eof (this : CliCommand) (f : FILE)
    (ds : list (list Z)) (w : Z) :
  tail f = EndOfFile ->
  exists st, readNodeset env (S (List.length (pending f))) this f ds w = Some st.
Proof.
  intros Ht. unfold readNodeset. apply readNodeset_loop_returns.
  - exact Ht.
  - cbn. lia.
Qed.

Lemma readNodeset_loop_broken (w : Z) :
  forall fuel st, inFile st = broken_stream ->
                  readNodeset_loop env fuel w st = None.
Proof.
  induction fuel as [|fuel IH]; intros st Hf; [reflexivity|].
  cbn [readNodeset_loop]. unfold readNodeset_body. rewrite Hf.
  change (readNodeIDRecord env broken_stream []) with (false, @nil Z, broken_stream).
  cbn [negb]. apply IH. apply inFile_fail_line.
Qed.

(** C1. On a stream whose every read fails with an error other than
    end-of-file, [readNodeset] never returns: whatever the number of passes
    allowed, the loop is still running. [readUintRecord] reports the failed
    read as a failed record, and the loop goes on to the next line. *)
Theorem readNodeset_spins_on_broken_stream (fuel : nat) (this : CliCommand)
    (ds : list (list Z)) (w : Z) :
  readNodeset env fuel this broken_stream ds w = None.
Proof. unfold readNodeset. now apply readNodeset_loop_broken. Qed.

(** C5. At the end of the stream, with nothing read, [readUintRecord]
    succeeds and leaves the record as it is (empty, when it was cleared),
    and the loop of [readNodeset] returns in this pass with [ok], the
    dataset, the status message and the line number it has accumulated;
    a blank line in the same place makes it return the same. *)
Theorem readNodeset_end_of_stream_is_terminator
    (this : CliCommand) (e : bool) (ds : list (list Z)) (b : bool) (n : Z)
    (msgs : list string) (w : Z) (fuel : nat)
    (rest : list input_event) (tl : stream_tail) :
  let at_eof := mkFILE [] EndOfFile e in
  let at_blank := mkFILE (Byte LF :: rest) tl false in
  readUintRecord env at_eof [] = (true, [], mkFILE [] EndOfFile true) /\
  readNodeset_loop env (S fuel) w (mkState this at_eof ds b n msgs)
  = Some (mkState this (mkFILE [] EndOfFile true) ds b n msgs) /\
  readNodeset_loop env (S fuel) w (mkState this at_blank ds b n msgs)
  = Some (mkState this (mkFILE rest tl false) ds b n msgs).
Proof.
  intros at_eof at_blank. subst at_eof at_blank.
  destruct e; repeat split; reflexivity.
Qed.

Lemma readNodeset_loop_dataset (w : Z) :
  forall fuel st st', readNodeset_loop env fuel w st = Some st' ->
    exists added, dataset st' = dataset st ++ added /\
      Forall (fun r => Forall node_id r /\ Z.of_nat (List.length r) = w) added.
Proof.
  induction fuel as [|fuel IH]; intros st st' H; [discriminate|].
  cbn [readNodeset_loop] in H. rewrite readNodeset_body_classify in H.
  destruct (classify env w (inFile st)) as [k f'] eqn:Ec.
  destruct (classify_spec _ _ _ _ Ec) as (_ & _ & Hw).
  destruct k as [| |record].
  - injection H as <-. exists []. cbn [dataset]. now rewrite app_nil_r.
  - destruct (IH _ _ H) as (added & Hd & Ha).
    rewrite dataset_fail_line in Hd. now exists added.
  - destruct (IH _ _ H) as (added & Hd & Ha). cbn [dataset] in Hd.
    destruct (ok st).
    + exists (record :: added). rewrite Hd, <- app_assoc. split; [reflexivity|].
      constructor; [now apply Hw|assumption].
    + now exists added.
Qed.

(** C6. Every record that a returning [readNodeset] has appended to the
    dataset holds only integers between 1 and 2^32-1 (and has the
    expected width); so a dataset read into an empty vector contains no
    zero, in particular when [ok] is returned true. *)
Theorem readNodeset_records_are_node_ids (fuel : nat) (this : CliCommand)
    (f : FILE) (ds : list (list Z)) (w : Z) (st : loop_state) :
  readNodeset env fuel this f ds w = Some st ->
  exists added,
    dataset st = ds ++ added /\
    (forall record v, In record added -> In v record -> 1 <= v <= 2 ^ 32 - 1) /\
    (forall record, In record added -> Z.of_nat (List.length record) = w).
Proof.
  intros H. unfold readNodeset in H.
  destruct (readNodeset_loop_dataset _ _ _ _ H) as (added & Hd & Ha).
  exists added. split; [exact Hd|]. rewrite Forall_forall in Ha. split.
  - intros record v Hr Hv. destruct (Ha record Hr) as [Hn _].
    rewrite Forall_forall in Hn. exact (Hn v Hv).
  - intros record Hr. now destruct (Ha record Hr).
Qed.

End DatasetReader.

(** *** The token splitter *)

Lemma skip_delim_length (delim str : string) :
  (String.length (skip_delim delim str) <= String.length str)%nat.
Proof.
  induction str as [|c str IH]; simpl; [lia|].
  destruct (strchr delim c); simpl; lia.
Qed.

Lemma scan_word_length (delim str : string) :
  (String.length (snd (scan_word delim str)) <= String.length str)%nat.
Proof.
  induction str as [|c str IH]; simpl; [lia|].
  destruct (strchr delim c); simpl; [lia|].
  destruct (scan_word delim str) as [w str']. simpl in *. lia.
Qed.

Lemma skip_delim_head (delim str : string) (c : ascii) (r : string) :
  skip_delim delim str = String c r -> strchr delim c = false.
Proof.
  induction str as [|d str IH]; simpl; [discriminate|].
  destruct (strchr delim d) eqn:E; [assumption|].
  intros H. injection H as <- <-. exact E.
Qed.

(** The loop of [splitString] returns within one pass per character and
    one more. *)
Lemma splitString_loop_returns (delim : string) :
  forall fuel str ret, (String.length str < fuel)%nat ->
    exists r, splitString_loop fuel delim str ret = Some r.
Proof.
  induction fuel as [|fuel IH]; intros str ret Hlen; [lia|].
  cbn [splitString_loop].
  pose proof (skip_delim_length delim str) as Hskip.
  destruct (skip_delim delim str) as [|c r] eqn:Es; [now eexists|].
  pose proof (skip_delim_head _ _ _ _ Es) as Hc.
  cbn [scan_word]. rewrite Hc.
  pose proof (scan_word_length delim r) as Hw.
  destruct (scan_word delim r) as [w str']. simpl in Hskip, Hw.
  destruct str' as [|d str'']; apply IH; simpl in *; lia.
Qed.

Lemma splitString_returns (s delim : string) :
  exists r, splitString_loop (S (String.length (c_str s))) delim (c_str s) [] = Some r
            /\ splitString s delim = r.
Proof.
  destruct (splitString_loop_returns delim (S (String.length (c_str s))) (c_str s) [])
    as [r Hr]; [lia|].
  exists r. split; [exact Hr|]. unfold splitString. now rewrite Hr.
Qed.

Example splitString_repeated_commas :
  splitString "1,,2" DEFAULT_DELIM = ["1"; "2"].
Proof. reflexivity. Qed.

Example splitString_mixed :
  splitString (String TAB " 12 a,b ,") DEFAULT_DELIM = ["12"; "a"; "b"].
Proof. reflexivity. Qed.

(** *** Lines of separators, and lines with a bad token *)

Lemma separator_not_NUL (c : ascii) : separator c -> Ascii.eqb c NUL = false.
Proof. intros [-> | [-> | ->]]; reflexivity. Qed.

Lemma separator_is_delim (c : ascii) : separator c -> strchr DEFAULT_DELIM c = true.
Proof. intros [-> | [-> | ->]]; reflexivity. Qed.

Lemma c_str_separators (line : string) :
  Forall separator (list_ascii_of_string line) -> c_str line = line.
Proof.
  induction line as [|c line IH]; simpl; intros H; [reflexivity|].
  inversion H as [|? ? Hc Hl]; subst.
  rewrite (separator_not_NUL c Hc), (IH Hl). reflexivity.
Qed.

Lemma skip_delim_separators (line : string) :
  Forall separator (list_ascii_of_string line) ->
  skip_delim DEFAULT_DELIM line = EmptyString.
Proof.
  induction line as [|c line IH]; simpl; intros H; [reflexivity|].
  inversion H as [|? ? Hc Hl]; subst.
  rewrite (separator_is_delim c Hc). now apply IH.
Qed.

Lemma splitString_separators (line : string) :
  Forall separator (list_ascii_of_string line) ->
  splitString line DEFAULT_DELIM = [].
Proof.
  intros H. unfold splitString. rewrite (c_str_separators line H).
  cbn [splitString_loop]. now rewrite (skip_delim_separators line H).
Qed.

(** C7. When the line delivered by [fgets], with its trailing newline
    removed, is not empty and is made of spaces, tabs and commas only,
    [readUintRecord] fails and leaves the vector as it is; the loop of
    [readNodeset] then takes the failure branch and goes on to the next
    line instead of returning. *)
Theorem readUintRecord_rejects_separator_line (env : Env) (f : FILE)
    (ret : list Z) (buf : string) (f' : FILE) :
  fgets 1024 f = (Some buf, f') ->
  chomp buf <> EmptyString ->
  Forall separator (list_ascii_of_string (chomp buf)) ->
  readUintRecord env f ret = (false, ret, f') /\
  forall w st, inFile st = f ->
               readNodeset_body env w st = Continue (fail_line env st f').
Proof.
  intros Hg Hne Hsep.
  assert (Hrec : forall r, readUintRecord env f r = (false, r, f')).
  { intros r. unfold readUintRecord. rewrite Hg.
    rewrite (splitString_separators _ Hsep).
    unfold strlen. rewrite (c_str_separators _ Hsep).
    destruct (chomp buf); [contradiction|reflexivity]. }
  split; [apply Hrec|].
  intros w st Hf. unfold readNodeset_body, readNodeIDRecord.
  rewrite Hf, Hrec. reflexivity.
Qed.

Lemma readUintRecord_rejects_separator_line_witness :
  readUintRecord lp64_C (stream_of (separators_only ++ "1 2")) []
  = (false, [], stream_of "1 2") /\
  forall w st, inFile st = stream_of (separators_only ++ "1 2") ->
               readNodeset_body lp64_C w st
               = Continue (fail_line lp64_C st (stream_of "1 2")).
Proof.
  apply (readUintRecord_rejects_separator_line lp64_C
           (stream_of (separators_only ++ "1 2")) [] separators_only
           (stream_of "1 2")).
  - reflexivity.
  - vm_compute. discriminate.
  - vm_compute. repeat (apply Forall_cons; [auto|]). apply Forall_nil.
Defined.

(** C9. When a token of the line is not a valid unsigned integer,
    [readUintRecord] fails with the vector holding what it held before
    followed by the values of the tokens that precede the first invalid
    one: nothing is rolled back. *)
Theorem readUintRecord_keeps_partial_record (env : Env) (f : FILE)
    (ret : list Z) (buf : string) (f' : FILE)
    (pre : list string) (bad : string) (post : list string) :
  fgets 1024 f = (Some buf, f') ->
  splitString (chomp buf) DEFAULT_DELIM = pre ++ bad :: post ->
  Forall (fun s => isValidUint s = true) pre ->
  isValidUint bad = false ->
  readUintRecord env f ret = (false, ret ++ map (parseUint env) pre, f').
Proof.
  intros Hg Hs Hpre Hbad. unfold readUintRecord. rewrite Hg, Hs.
  replace (List.length (pre ++ bad :: post) =? 0)%nat with false.
  2:{ symmetry. apply Nat.eqb_neq. rewrite length_app. simpl. lia. }
  rewrite andb_false_r.
  now rewrite (push_uints_stops env pre bad post Hpre Hbad).
Qed.

Lemma readUintRecord_keeps_partial_record_witness :
  readUintRecord lp64_C (stream_of ("10 20 x3 40" ++ nl)) [7]
  = (false, [7; 10; 20], stream_of EmptyString).
Proof.
  apply (readUintRecord_keeps_partial_record lp64_C _ [7] ("10 20 x3 40" ++ nl) _
           ["10"; "20"] "x3" ["40"]).
  - reflexivity.
  - reflexivity.
  - repeat constructor.
  - reflexivity.
Defined.

(** *** Blocks of lines *)

Lemma first_malformed_spec (lines : list line_kind) :
  In Malformed lines ->
  exists i, first_malformed lines = Some i /\
            nth_error lines i = Some Malformed /\
            forall j, (j < i)%nat -> nth_error lines j <> Some Malformed.
Proof.
  induction lines as [|k lines IH]; intros Hin; [destruct Hin|].
  destruct k as [| |r].
  - destruct Hin as [Hk|Hin]; [discriminate|].
    destruct (IH Hin) as (i & Hi & Hn & Hmin).
    exists (S i). simpl. rewrite Hi. repeat split; trivial.
    intros [|j] Hj; simpl; [discriminate|]. apply Hmin. lia.
  - exists O. repeat split. intros j Hj. lia.
  - destruct Hin as [Hk|Hin]; [discriminate|].
    destruct (IH Hin) as (i & Hi & Hn & Hmin).
    exists (S i). simpl. rewrite Hi. repeat split; trivial.
    intros [|j] Hj; simpl; [discriminate|]. apply Hmin. lia.
Qed.

Section BlockReader.

Variable env : Env.

Lemma readNodeset_loop_S (n : nat) (w : Z) (st : loop_state) :
  readNodeset_loop env (S n) w st =
  match readNodeset_body env w st with
  | Return st' => Some st'
  | Continue st' => readNodeset_loop env n w st'
  end.
Proof. reflexivity. Qed.

(** Entered at the start of a block, the loop returns after one pass
    per line and one for the terminator, in the state [block_result]. *)
Lemma readNodeset_loop_block (w : Z) (f : FILE) (lines : list line_kind)
    (f_end : FILE) :
  block env w f lines f_end ->
  forall st, inFile st = f ->
    readNodeset_loop env (S (List.length lines)) w st
    = Some (block_result env lines f_end st).
Proof.
  induction 1 as [f f_end Hc|f k f' lines f_end Hc Hk Hb IH]; intros st Hst.
  - rewrite readNodeset_loop_S, readNodeset_body_classify, Hst, Hc.
    destruct st as [s fi d [|] n a]; unfold block_result; simpl;
      now rewrite ?app_nil_r.
  - cbn [List.length].
    rewrite (readNodeset_loop_S (S (List.length lines))).
    rewrite readNodeset_body_classify, Hst, Hc.
    destruct k as [| |r]; [contradiction| |].
    + rewrite IH by apply inFile_fail_line. f_equal.
      destruct st as [s fi d [|] n a]; unfold block_result, fail_line; simpl;
        now rewrite ?app_nil_r.
    + rewrite IH by reflexivity. f_equal.
      destruct st as [s fi d [|] n a]; unfold block_result; simpl;
        [|reflexivity].
      destruct (first_malformed lines); simpl; now rewrite <- app_assoc.
Qed.

Lemma block_result_init (this : CliCommand) (f f_end : FILE)
    (ds : list (list Z)) (lines : list line_kind) :
  block_result env lines f_end (readNodeset_init this f ds) =
  match first_malformed lines with
  | Some i =>
      mkState (set_lastStatusMessage this (line_error env (advance i 1))) f_end
              (ds ++ leading_records lines) false
              (advance (List.length lines) 1)
              [cliSuccess nl; line_error env (advance i 1)]
  | None =>
      mkState (set_lastStatusMessage this (cliSuccess nl)) f_end
              (ds ++ leading_records lines) true
              (advance (List.length lines) 1) [cliSuccess nl]
  end.
Proof.
  unfold block_result, readNodeset_init, report.
  cbn [ok lineno self dataset assigned inFile].
  destruct (first_malformed lines); reflexivity.
Qed.

(** A block without a malformed line is read whole: every record is
    appended, in the order of the stream, and [ok] stays true. *)
Lemma readNodeset_wellformed_block (this : CliCommand) (w : Z) (f : FILE)
    (lines : list line_kind) (f_end : FILE) (ds : list (list Z)) :
  block env w f lines f_end ->
  first_malformed lines = None ->
  exists st,
    readNodeset env (S (List.length lines)) this f ds w = Some st /\
    ok st = true /\ inFile st = f_end /\
    dataset st = ds ++ leading_records lines /\
    assigned st = [cliSuccess nl].
Proof.
  intros Hb Hfm. unfold readNodeset.
  rewrite (readNodeset_loop_block w f lines f_end Hb) by reflexivity.
  rewrite block_result_init, Hfm.
  eexists. split; [reflexivity|]. cbn [ok inFile dataset assigned]. auto.
Qed.

(** C2. When the block that starts at [f] holds a malformed line (a
    record that could not be read, or one of the wrong width),
    [readNodeset] returns with [ok] false, having read every line of the
    block and its terminator; the status messages assigned during the
    call are the initial success message and one ERROR message, which names
    the first malformed line and is the last status message at the
    return. *)
Theorem readNodeset_reports_first_error_once (this : CliCommand) (f : FILE)
    (ds : list (list Z)) (w : Z) (lines : list line_kind) (f_end : FILE) :
  block env w f lines f_end ->
  In Malformed lines ->
  exists st i,
    readNodeset env (S (List.length lines)) this f ds w = Some st /\
    ok st = false /\
    inFile st = f_end /\
    nth_error lines i = Some Malformed /\
    (forall j, (j < i)%nat -> nth_error lines j <> Some Malformed) /\
    assigned st = [cliSuccess nl; line_error env (to_uint32 (Z.of_nat i + 1))] /\
    List.length (filter is_error_status (assigned st)) = 1%nat /\
    lastStatusMessage (self st) = line_error env (to_uint32 (Z.of_nat i + 1)).
Proof.
  intros Hb Hin.
  destruct (first_malformed_spec lines Hin) as (i & Hi & Hn & Hmin).
  unfold readNodeset.
  rewrite (readNodeset_loop_block w f lines f_end Hb) by reflexivity.
  rewrite block_result_init, Hi, advance_from_one.
  eexists. exists i. split; [reflexivity|].
  cbn [ok inFile assigned self set_lastStatusMessage lastStatusMessage].
  repeat split; trivial.
  cbn [filter]. rewrite cliSuccess_not_error.
  unfold line_error. rewrite cliError_is_error. reflexivity.
Qed.

(** C4. The lines 1 2, 3 4 and an empty line, read with expected size 2
    into an empty dataset, give the dataset [[1,2],[3,4]] and [ok] true;
    the stream is left just after the empty line and the status message is
    the initial success message. *)
Theorem readNodeset_two_arcs (this : CliCommand) (rest : list input_event)
    (tl : stream_tail) :
  readNodeset env 3 this
              (mkFILE (bytes (unlines ["1 2"; "3 4"; EmptyString]) ++ rest) tl false) [] 2
  = Some (mkState (set_lastStatusMessage this (cliSuccess nl))
                  (mkFILE rest tl false) [[1; 2]; [3; 4]] true 3
                  [cliSuccess nl]).
Proof. destruct env as [[|] g]; reflexivity. Qed.

End BlockReader.

(** *** Concrete runs *)

Lemma readNodeset_reports_first_error_once_witness :
  exists st i,
    readNodeset lp64_C 5 (default_command "add-arcs" RT_NONE)
                (stream_of (unlines ["1 2"; "1 2 3"; "4 x"; "5 6"; EmptyString])) [] 2
    = Some st /\
    ok st = false /\
    inFile st = stream_of EmptyString /\
    nth_error [Wellformed [1; 2]; Malformed; Malformed; Wellformed [5; 6]] i
    = Some Malformed /\
    (forall j, (j < i)%nat ->
       nth_error [Wellformed [1; 2]; Malformed; Malformed; Wellformed [5; 6]] j
       <> Some Malformed) /\
    assigned st = [cliSuccess nl; line_error lp64_C (to_uint32 (Z.of_nat i + 1))] /\
    List.length (filter is_error_status (assigned st)) = 1%nat /\
    lastStatusMessage (self st) = line_error lp64_C (to_uint32 (Z.of_nat i + 1)).
Proof.
  apply (readNodeset_reports_first_error_once lp64_C
           (default_command "add-arcs" RT_NONE)
           (stream_of (unlines ["1 2"; "1 2 3"; "4 x"; "5 6"; EmptyString])) [] 2
           [Wellformed [1; 2]; Malformed; Malformed; Wellformed [5; 6]]
           (stream_of EmptyString)).
  - repeat (eapply block_line; [vm_compute; reflexivity|discriminate|]).
    apply block_end. vm_compute. reflexivity.
  - right. left. reflexivity.
Defined.

Lemma readNodeset_records_are_node_ids_witness :
  exists added,
    [[1; 2]; [3; 4]] = [] ++ added /\
    (forall record v, In record added -> In v record -> 1 <= v <= 2 ^ 32 - 1) /\
    (forall record, In record added -> Z.of_nat (List.length record) = 2).
Proof.
  apply (readNodeset_records_are_node_ids lp64_C 3
           (default_command "add-arcs" RT_NONE)
           (stream_of (unlines ["1 2"; "3 4"; EmptyString])) [] 2
           (mkState (set_lastStatusMessage (default_command "add-arcs" RT_NONE)
                                           (cliSuccess nl))
                    (stream_of EmptyString) [[1; 2]; [3; 4]] true 3 [cliSuccess nl])).
  reflexivity.
Defined.

(** A block that ends with the stream, its last line not even ended by a
    newline, is read like a block that ends with an empty line. *)
Example readNodeset_unterminated_block :
  option_map (fun st => (ok st, dataset st))
    (readNodeset lp64_C 3 (default_command "add-arcs" RT_NONE)
                 (stream_of ("1 2" ++ nl ++ "3 4")) [] 2)
  = Some (true, [[1; 2]; [3; 4]]).
Proof. reflexivity. Qed.

(** The test of the specification for a line that is too wide: one ERROR
    message for the two lines read. *)
Example readNodeset_too_wide :
  option_map (fun st => (ok st, dataset st, assigned st, inFile st))
    (readNodeset lp64_C 2 (default_command "add-arcs" RT_NONE)
                 (stream_of (unlines ["1 2 3"; EmptyString])) [] 2)
  = Some (false, [], [cliSuccess nl; line_error lp64_C 1], stream_of EmptyString).
Proof. reflexivity. Qed.

(* ================================================================= *)
(** ** Further properties of the token splitter *)

Lemma c_str_no_NUL (s : string) : Forall (fun c => c <> NUL) (chars (c_str s)).
Proof.
  induction s as [|c s IH]; simpl; [constructor|].
  destruct (Ascii.eqb c NUL) eqn:E; [constructor|].
  constructor; [now apply Ascii.eqb_neq|exact IH].
Qed.

Lemma c_str_id (s : string) :
  Forall (fun c => c <> NUL) (chars s) -> c_str s = s.
Proof.
  induction s as [|c s IH]; simpl; intros H; [reflexivity|].
  inversion H as [|? ? Hc Hs]; subst.
  apply Ascii.eqb_neq in Hc. rewrite Hc, (IH Hs). reflexivity.
Qed.

Lemma chars_append (s t : string) : chars (s ++ t) = chars s ++ chars t.
Proof. induction s as [|c s IH]; simpl; [reflexivity|now rewrite <- IH]. Qed.

(** What the second inner loop passes over is free of delimiters, and it
    stops at the end of the string or on a delimiter. *)
Lemma scan_word_spec (delim : string) (str : string) :
  forall w str', scan_word delim str = (w, str') ->
    str = (w ++ str')%string /\
    Forall (fun c => strchr delim c = false) (chars w) /\
    match str' with
    | String d _ => strchr delim d = true
    | EmptyString => True
    end.
Proof.
  induction str as [|c str IH]; intros w str' H; simpl in H.
  - injection H as <- <-. repeat split. constructor.
  - destruct (strchr delim c) eqn:E.
    + injection H as <- <-. repeat split; [constructor|exact E].
    + destruct (scan_word delim str) as [w1 s1] eqn:Es.
      injection H as <- <-. destruct (IH _ _ eq_refl) as (-> & Hw & Hs).
      repeat split; [|exact Hs]. simpl. constructor; assumption.
Qed.

Lemma skip_delim_spec (delim : string) (str : string) :
  exists lead, str = (lead ++ skip_delim delim str)%string /\
               Forall (fun c => strchr delim c = true) (chars lead).
Proof.
  induction str as [|c str IH]; simpl.
  - exists EmptyString. split; [reflexivity|constructor].
  - destruct (strchr delim c) eqn:E.
    + destruct IH as (lead & Hl & Hd). exists (String c lead). split.
      * simpl. now rewrite <- Hl.
      * simpl. constructor; assumption.
    + exists EmptyString. split; [reflexivity|constructor].
Qed.

(** One pass of the loop of [splitString], for a string that starts with
    a token. *)
Lemma splitString_loop_S (fuel : nat) (delim : string) (str : string)
    (ret : list string) :
  splitString_loop (S fuel) delim str ret =
  match skip_delim delim str with
  | EmptyString => Some ret
  | String c r =>
      let '(w, str') := scan_word delim (String c r) in
      match str' with
      | String _ str'' => splitString_loop fuel delim str'' (ret ++ [w])
      | EmptyString => splitString_loop fuel delim str' (ret ++ [w])
      end
  end.
Proof. reflexivity. Qed.

Lemma splitString_loop_tokens (delim : string) :
  forall fuel str ret r,
    Forall (fun c => c <> NUL) (chars str) ->
    splitString_loop fuel delim str ret = Some r ->
    exists toks, r = ret ++ toks /\ Forall (token_for delim) toks /\
                 (toks = [] -> Forall (fun c => strchr delim c = true) (chars str)).
Proof.
  induction fuel as [|fuel IH]; intros str ret r Hnul H; [discriminate|].
  rewrite splitString_loop_S in H.
  destruct (skip_delim_spec delim str) as (lead & Hstr & Hlead).
  destruct (skip_delim delim str) as [|c s1] eqn:Es.
  - injection H as <-. exists []. rewrite app_nil_r. repeat split; [constructor|].
    intros _. rewrite Hstr, chars_append, app_nil_r. exact Hlead.
  - pose proof (skip_delim_head _ _ _ _ Es) as Hc.
    destruct (scan_word delim (String c s1)) as [w str'] eqn:Ew.
    destruct (scan_word_spec _ _ _ _ Ew) as (Hsplit & Hw & Hnext).
    assert (Hnul1 : Forall (fun c => c <> NUL) (chars (String c s1))).
    { rewrite Hstr, chars_append in Hnul. now apply Forall_app in Hnul. }
    rewrite Hsplit, chars_append in Hnul1. apply Forall_app in Hnul1.
    destruct Hnul1 as [Hnw Hns].
    assert (Htok : token_for delim w).
    { split.
      - simpl in Ew. rewrite Hc in Ew. destruct (scan_word delim s1).
        injection Ew as <- _. discriminate.
      - rewrite Forall_forall in *. intros x Hx. split; auto. }
    assert (Hrest : exists toks, r = (ret ++ [w]) ++ toks /\
                                 Forall (token_for delim) toks).
    { destruct str' as [|d str''].
      - destruct (IH _ _ _ Hns H) as (toks & ? & ? & _). eauto.
      - inversion Hns; subst.
        destruct (IH _ _ _ ltac:(eassumption) H) as (toks & ? & ? & _). eauto. }
    destruct Hrest as (toks & -> & Htoks).
    exists (w :: toks). rewrite <- app_assoc. repeat split.
    + constructor; assumption.
    + discriminate.
Qed.

(** Every token returned by [splitString] is non-empty and holds neither
    a delimiter nor a NUL, whatever the string and the delimiters. *)
Theorem splitString_tokens (s delim : string) (t : string) :
  In t (splitString s delim) ->
  t <> EmptyString /\
  forall c, In c (chars t) -> strchr delim c = false /\ c <> NUL.
Proof.
  intros Hin. destruct (splitString_returns s delim) as (r & Hr & Heq).
  rewrite Heq in Hin.
  destruct (splitString_loop_tokens delim _ _ _ _ (c_str_no_NUL s) Hr)
    as (toks & -> & Htoks & _).
  simpl in Hin. rewrite Forall_forall in Htoks.
  destruct (Htoks t Hin) as [Hne Hc]. split; [exact Hne|].
  rewrite Forall_forall in Hc. exact Hc.
Qed.

Lemma skip_delim_all (delim : string) (str : string) :
  Forall (fun c => strchr delim c = true) (chars str) ->
  skip_delim delim str = EmptyString.
Proof.
  induction str as [|c str IH]; simpl; intros H; [reflexivity|].
  inversion H as [|? ? Hc Hs]; subst. rewrite Hc. now apply IH.
Qed.

(** [splitString] returns no token exactly when the string, up to its
    first NUL, is made of delimiters only (the empty string included). *)
Theorem splitString_empty_iff (s delim : string) :
  splitString s delim = [] <->
  Forall (fun c => strchr delim c = true) (chars (c_str s)).
Proof.
  split.
  - intros H. destruct (splitString_returns s delim) as (r & Hr & Heq).
    rewrite H in Heq. subst r.
    destruct (splitString_loop_tokens delim _ _ _ _ (c_str_no_NUL s) Hr)
      as (toks & Htoks & _ & Hall).
    apply Hall. simpl in Htoks. now symmetry.
  - intros H. unfold splitString. rewrite splitString_loop_S.
    now rewrite (skip_delim_all delim _ H).
Qed.

Lemma scan_word_token (delim : string) (t tail : string) :
  Forall (fun c => strchr delim c = false) (chars t) ->
  match tail with
  | String d _ => strchr delim d = true
  | EmptyString => True
  end ->
  scan_word delim (t ++ tail) = (t, tail).
Proof.
  intros Ht Htail. induction t as [|c t IH]; simpl.
  - destruct tail as [|d tail]; [reflexivity|]. simpl. now rewrite Htail.
  - inversion Ht as [|? ? Hc Hr]; subst. rewrite Hc, (IH Hr). reflexivity.
Qed.

Lemma join_cons (d : ascii) (t : string) (rest : list string) :
  join d (t :: rest) =
  (t ++ match rest with [] => EmptyString | _ => String d (join d rest) end)%string.
Proof.
  destruct rest; simpl; [|reflexivity].
  induction t as [|c t IH]; simpl; [reflexivity|now rewrite <- IH].
Qed.

Lemma token_for_weaken (delim t : string) :
  token_for delim t ->
  Forall (fun c => strchr delim c = false) (chars t) /\
  Forall (fun c => c <> NUL) (chars t).
Proof.
  intros [_ H]. rewrite Forall_forall in H.
  split; apply Forall_forall; intros c Hc; now destruct (H c Hc).
Qed.

Lemma join_no_NUL (delim : string) (d : ascii) (toks : list string) :
  d <> NUL -> Forall (token_for delim) toks ->
  Forall (fun c => c <> NUL) (chars (join d toks)).
Proof.
  intros Hd Htoks. induction Htoks as [|t rest Ht Hrest IH]; [constructor|].
  rewrite join_cons, chars_append. apply Forall_app. split.
  - now apply (token_for_weaken delim).
  - destruct rest; [constructor|]. simpl. constructor; assumption.
Qed.

Lemma splitString_loop_join (delim : string) (d : ascii) :
  strchr delim d = true ->
  forall toks, Forall (token_for delim) toks ->
    forall fuel ret, (String.length (join d toks) < fuel)%nat ->
      splitString_loop fuel delim (join d toks) ret = Some (ret ++ toks).
Proof.
  intros Hd toks Htoks.
  induction Htoks as [|t rest Ht Hrest IH]; intros fuel ret Hfuel.
  - destruct fuel; [simpl in Hfuel; lia|]. simpl. now rewrite app_nil_r.
  - destruct fuel as [|fuel]; [lia|].
    rewrite join_cons in *. rewrite length_append in Hfuel.
    destruct (token_for_weaken _ _ Ht) as [Hnd _]. destruct Ht as [Hne _].
    destruct t as [|c t]; [contradiction|]. clear Hne.
    rewrite splitString_loop_S.
    assert (Hc : strchr delim c = false) by (now inversion Hnd).
    change ((String c t ++ ?x)%string) with (String c (t ++ x)).
    cbn [skip_delim]. rewrite Hc.
    change (String c (t ++ ?x)) with ((String c t ++ x)%string).
    destruct rest as [|t' rest'].
    + rewrite (scan_word_token delim (String c t) EmptyString Hnd I).
      destruct fuel; [simpl in Hfuel; lia|]. reflexivity.
    + rewrite (scan_word_token delim (String c t) (String d (join d (t' :: rest'))) Hnd Hd).
      rewrite IH.
      * now rewrite <- app_assoc.
      * simpl in Hfuel |- *. lia.
Qed.

(** Splitting gives back the tokens that were joined: for tokens that are
    not empty and hold no delimiter and no NUL, put together with one
    delimiter character between neighbours. *)
Theorem splitString_join (delim : string) (d : ascii) (toks : list string) :
  strchr delim d = true -> d <> NUL ->
  Forall (token_for delim) toks ->
  splitString (join d toks) delim = toks.
Proof.
  intros Hd Hnul Htoks. unfold splitString.
  rewrite (c_str_id _ (join_no_NUL delim d toks Hnul Htoks)).
  rewrite (splitString_loop_join delim d Hd toks Htoks); [reflexivity|lia].
Qed.

Lemma splitString_join_witness :
  splitString (join " " ["17"; "4"; "2026"]) DEFAULT_DELIM = ["17"; "4"; "2026"].
Proof.
  apply (splitString_join DEFAULT_DELIM " " ["17"; "4"; "2026"]).
  - reflexivity.
  - discriminate.
  - repeat (apply Forall_cons;
            [split; [discriminate|
                     repeat (apply Forall_cons; [split; [reflexivity|discriminate]|]);
                     apply Forall_nil]|]).
    apply Forall_nil.
Defined.

Lemma splitString_tokens_witness :
  "12" <> EmptyString /\
  forall c, In c (chars "12") -> strchr DEFAULT_DELIM c = false /\ c <> NUL.
Proof.
  apply (splitString_tokens (String TAB " 12,a") DEFAULT_DELIM "12").
  left. reflexivity.
Defined.

(* ================================================================= *)
(** ** Further properties of the integer conversion *)

Lemma isdigit_code (c : ascii) : isdigit c = true -> 48 <= code c <= 57.
Proof. unfold isdigit. rewrite andb_true_iff, !Z.leb_le. tauto. Qed.

Lemma isdigit_not_NUL (c : ascii) : isdigit c = true -> Ascii.eqb c NUL = false.
Proof.
  intros H. apply Ascii.eqb_neq. intros ->. apply isdigit_code in H.
  vm_compute in H. destruct H as [H _]. now apply H.
Qed.

Lemma isdigit_digit_value (c : ascii) :
  isdigit c = true -> digit_value c = Some (code c - 48).
Proof. unfold isdigit, digit_value. now intros ->. Qed.

Lemma isdigit_not_space (c : ascii) : isdigit c = true -> isspace c = false.
Proof.
  intros H. apply isdigit_code in H. unfold isspace.
  apply orb_false_iff. split.
  - apply Z.eqb_neq. lia.
  - apply andb_false_iff. right. apply Z.leb_gt. lia.
Qed.

Lemma all_digits_cons (c : ascii) (s : string) :
  all_digits (String c s) = true -> isdigit c = true /\ all_digits s = true.
Proof. simpl. destruct (isdigit c); simpl; [auto|discriminate]. Qed.

Lemma all_digits_c_str (s : string) : all_digits s = true -> c_str s = s.
Proof.
  induction s as [|c s IH]; intros H; [reflexivity|].
  apply all_digits_cons in H. destruct H as [Hc Hs]. simpl.
  rewrite (isdigit_not_NUL c Hc), (IH Hs). reflexivity.
Qed.

Lemma accumulate_decimal (s : string) :
  all_digits s = true ->
  forall acc, accumulate 10 acc s = decimal_value_from acc s.
Proof.
  induction s as [|c s IH]; intros H acc; [reflexivity|].
  apply all_digits_cons in H. destruct H as [Hc Hs]. simpl.
  rewrite (isdigit_digit_value c Hc).
  apply isdigit_code in Hc.
  replace (code c - 48 <? 10) with true by (symmetry; apply Z.ltb_lt; lia).
  now apply IH.
Qed.

Lemma decimal_value_from_ge (s : string) :
  all_digits s = true ->
  forall acc, 0 <= acc -> acc <= decimal_value_from acc s.
Proof.
  induction s as [|c s IH]; intros H acc Hacc; simpl; [lia|].
  apply all_digits_cons in H. destruct H as [Hc Hs].
  apply isdigit_code in Hc.
  specialize (IH Hs (acc * 10 + (code c - 48)) ltac:(lia)). lia.
Qed.

Lemma isValidUint_inv (s : string) :
  isValidUint s = true -> exists c r, s = String c r /\ all_digits s = true.
Proof.
  unfold isValidUint. destruct s as [|c r]; [discriminate|].
  simpl String.length. cbn [Nat.ltb Nat.leb]. intros H. now exists c, r.
Qed.

(** On a token of decimal digits that does not begin with 0, [strtoul]
    with base 0 converts in base 10. *)
Lemma strtoul_decimal (m : data_model) (s : string) :
  isValidUint s = true -> leading_zero s = false ->
  strtoul m s 0 =
  if ULONG_MAX m <? decimal_value s then ULONG_MAX m else decimal_value s.
Proof.
  intros Hv Hz. destruct (isValidUint_inv s Hv) as (c & r & -> & Hd).
  unfold strtoul. rewrite (all_digits_c_str _ Hd).
  destruct (all_digits_cons _ _ Hd) as [Hc Hr].
  cbn [skip_space]. rewrite (isdigit_not_space c Hc).
  pose proof (isdigit_code c Hc) as Hcode.
  simpl in Hz. unfold take_sign.
  replace (code c =? 45) with false by (symmetry; apply Z.eqb_neq; lia).
  replace (code c =? 43) with false by (symmetry; apply Z.eqb_neq; lia).
  assert (Hp : take_prefix 0 (String c r) = (10, String c r)).
  { unfold take_prefix. rewrite Hz. destruct r as [|x [|h r']]; reflexivity. }
  rewrite Hp. rewrite (accumulate_decimal _ Hd). reflexivity.
Qed.

(** For a token of decimal digits without a leading 0, [parseUint] is the
    decimal value reduced modulo 2^32 when that value fits an [unsigned
    long], and 2^32-1 when it does not. *)
Theorem parseUint_decimal (env : Env) (s : string) :
  isValidUint s = true -> leading_zero s = false ->
  parseUint env s =
  if ULONG_MAX (abi env) <? decimal_value s then 2 ^ 32 - 1
  else decimal_value s mod 2 ^ 32.
Proof.
  intros Hv Hz. unfold parseUint. rewrite (strtoul_decimal _ s Hv Hz).
  destruct (ULONG_MAX (abi env) <? decimal_value s); [|reflexivity].
  now destruct (abi env).
Qed.

Lemma parseUint_decimal_witness :
  parseUint lp64_C "4294967297" = 1 /\
  parseUint (mkEnv ILP32 (fun s => s)) "4294967297" = 2 ^ 32 - 1.
Proof.
  split.
  - exact (parseUint_decimal lp64_C "4294967297" eq_refl eq_refl).
  - exact (parseUint_decimal (mkEnv ILP32 (fun s => s)) "4294967297" eq_refl eq_refl).
Defined.

(** A token of decimal digits without a leading 0 whose value is below
    2^32 is converted to that value, and is a valid node ID. *)
Theorem parseUint_exact (env : Env) (s : string) :
  isValidUint s = true -> leading_zero s = false ->
  decimal_value s < 2 ^ 32 ->
  parseUint env s = decimal_value s /\ isValidNodeID env s = true.
Proof.
  intros Hv Hz Hlt.
  destruct (isValidUint_inv s Hv) as (c & r & -> & Hd).
  destruct (all_digits_cons _ _ Hd) as [Hc Hr].
  pose proof (isdigit_code c Hc) as Hcode.
  assert (Hpos : 1 <= decimal_value (String c r)).
  { unfold decimal_value. simpl. simpl in Hz. apply Z.eqb_neq in Hz.
    pose proof (decimal_value_from_ge r Hr (code c - 48) ltac:(lia)).
    lia. }
  assert (Hp : parseUint env (String c r) = decimal_value (String c r)).
  { unfold parseUint. rewrite (strtoul_decimal _ _ Hv Hz).
    replace (ULONG_MAX (abi env) <? decimal_value (String c r)) with false.
    - apply to_uint32_small. lia.
    - symmetry. apply Z.ltb_ge. destruct (abi env); simpl; lia. }
  split; [exact Hp|].
  unfold isValidNodeID. rewrite Hv, Hp. simpl.
  apply negb_true_iff, Z.eqb_neq. lia.
Qed.

Lemma parseUint_exact_witness :
  parseUint lp64_C "4294967295" = 4294967295 /\
  isValidNodeID lp64_C "4294967295" = true.
Proof.
  apply (parseUint_exact lp64_C "4294967295"); reflexivity.
Defined.

(* ================================================================= *)
(** ** Further properties of the record readers *)

Lemma strlen_zero_splitString (line : string) :
  strlen line = O -> splitString line DEFAULT_DELIM = [].
Proof.
  unfold strlen, splitString. intros H.
  destruct (c_str line); [reflexivity|discriminate].
Qed.

Section RecordsAccepted.

Variable env : Env.

Lemma push_uints_valid (strings : list string) :
  forallb isValidUint strings = true ->
  forall ret, push_uints env strings ret = (true, ret ++ map (parseUint env) strings).
Proof.
  induction strings as [|s strings IH]; simpl; intros H ret.
  - now rewrite app_nil_r.
  - apply andb_true_iff in H. destruct H as [Hs Hr]. rewrite Hs. simpl.
    rewrite (IH Hr), <- app_assoc. reflexivity.
Qed.

Lemma push_uints_true (strings : list string) :
  forall ret ret', push_uints env strings ret = (true, ret') ->
                   forallb isValidUint strings = true.
Proof.
  induction strings as [|s strings IH]; simpl; intros ret ret' H; [reflexivity|].
  destruct (isValidUint s); simpl in *; [eauto|discriminate].
Qed.

Lemma push_uints_length (strings : list string) :
  forall ret b ret', push_uints env strings ret = (b, ret') ->
    (List.length ret' <= List.length ret + List.length strings)%nat.
Proof.
  induction strings as [|s strings IH]; simpl; intros ret b ret' H.
  - injection H as <- <-. lia.
  - destruct (isValidUint s); simpl in H.
    + apply IH in H. rewrite length_app in H. simpl in H. lia.
    + injection H as <- <-. lia.
Qed.

Lemma push_uints_fst (strings : list string) :
  forall ret, fst (push_uints env strings ret) = forallb isValidUint strings.
Proof.
  induction strings as [|s strings IH]; simpl; intros ret; [reflexivity|].
  destruct (isValidUint s); simpl; [apply IH|reflexivity].
Qed.

(** What [readUintRecord] returns for a line, with the two tests of the
    function as one boolean. *)
Lemma readUintRecord_line (f : FILE) (ret : list Z) (buf : string) (f' : FILE) :
  fgets 1024 f = (Some buf, f') ->
  exists r,
    readUintRecord env f ret =
    (forallb isValidUint (splitString (chomp buf) DEFAULT_DELIM)
     && ((0 <? List.length (splitString (chomp buf) DEFAULT_DELIM))%nat
         || (strlen (chomp buf) =? 0)%nat), r, f') /\
    (fst (fst (readUintRecord env f ret)) = true ->
     r = ret ++ map (parseUint env) (splitString (chomp buf) DEFAULT_DELIM)).
Proof.
  intros Hg. unfold readUintRecord. rewrite Hg.
  remember (splitString (chomp buf) DEFAULT_DELIM) as toks eqn:Ht.
  destruct (strlen (chomp buf)) as [|n] eqn:En.
  - rewrite (strlen_zero_splitString _ En) in Ht. subst toks. simpl.
    exists ret. split; [reflexivity|]. intros _. now rewrite app_nil_r.
  - cbn [Nat.ltb Nat.leb andb Nat.eqb orb].
    destruct toks as [|t toks'] eqn:Et.
    + simpl. exists ret. split; [reflexivity|discriminate].
    + cbn [List.length Nat.eqb Nat.ltb Nat.leb]. rewrite andb_true_r.
      pose proof (push_uints_fst (t :: toks') ret) as Hfst.
      destruct (push_uints env (t :: toks') ret) as [b r] eqn:Ep. cbn [fst] in *.
      exists r. rewrite Hfst. split; [reflexivity|].
      intros Hv. rewrite (push_uints_valid _ Hv) in Ep. now injection Ep.
Qed.

Lemma accepted_iff (toks : list string) (n : nat) (a : bool) :
  a && ((0 <? List.length toks)%nat || (n =? 0)%nat) = true <->
  a = true /\ (toks = [] -> n = O).
Proof.
  destruct a; cbn [andb]; [|split; [discriminate|intros [? _]; discriminate]].
  destruct toks as [|t toks]; cbn [List.length Nat.ltb Nat.leb orb].
  - rewrite Nat.eqb_eq. split; [auto|]. intros [_ H]. now apply H.
  - split; [|reflexivity]. intros _. split; [reflexivity|discriminate].
Qed.

(** [readUintRecord] accepts a line exactly when each of its tokens is a
    string of decimal digits and the line is not made of separators only;
    it then appends the values of all the tokens, in order. Zero is
    accepted. *)
Theorem readUintRecord_accepts (f : FILE) (ret : list Z) (buf : string) (f' : FILE) :
  fgets 1024 f = (Some buf, f') ->
  let toks := splitString (chomp buf) DEFAULT_DELIM in
  (fst (fst (readUintRecord env f ret)) = true <->
   forallb isValidUint toks = true /\ (toks = [] -> strlen (chomp buf) = O)) /\
  (fst (fst (readUintRecord env f ret)) = true ->
   readUintRecord env f ret = (true, ret ++ map (parseUint env) toks, f')).
Proof.
  intros Hg. cbv zeta.
  destruct (readUintRecord_line f ret buf f' Hg) as (r & Heq & Hr).
  rewrite Heq in *. cbn [fst] in *. split.
  - apply accepted_iff.
  - intros Hacc. rewrite Hacc, (Hr Hacc). reflexivity.
Qed.

Lemma has_zero_app (l1 l2 : list Z) :
  has_zero (l1 ++ l2) = has_zero l1 || has_zero l2.
Proof.
  induction l1 as [|v l1 IH]; simpl; [reflexivity|].
  destruct (v =? 0); [reflexivity|exact IH].
Qed.

Lemma forallb_isValidNodeID (toks : list string) :
  forallb (isValidNodeID env) toks =
  forallb isValidUint toks && negb (has_zero (map (parseUint env) toks)).
Proof.
  induction toks as [|t toks IH]; simpl; [reflexivity|].
  rewrite IH. unfold isValidNodeID.
  destruct (isValidUint t), (parseUint env t =? 0), (forallb isValidUint toks);
    reflexivity.
Qed.

Lemma readNodeIDRecord_line (f : FILE) (buf : string) (f' : FILE) :
  fgets 1024 f = (Some buf, f') ->
  exists r,
    readNodeIDRecord env f [] =
    (forallb (isValidNodeID env) (splitString (chomp buf) DEFAULT_DELIM)
     && ((0 <? List.length (splitString (chomp buf) DEFAULT_DELIM))%nat
         || (strlen (chomp buf) =? 0)%nat), r, f') /\
    (fst (fst (readNodeIDRecord env f [])) = true ->
     r = map (parseUint env) (splitString (chomp buf) DEFAULT_DELIM)).
Proof.
  intros Hg. destruct (readUintRecord_line f [] buf f' Hg) as (r & Heq & Hr).
  unfold readNodeIDRecord. rewrite Heq in *. cbn [fst] in Hr.
  rewrite forallb_isValidNodeID.
  remember (splitString (chomp buf) DEFAULT_DELIM) as toks eqn:Ht.
  destruct (forallb isValidUint toks); cbn [andb negb].
  - destruct ((0 <? List.length toks)%nat || (strlen (chomp buf) =? 0)%nat);
      cbn [negb].
    + specialize (Hr eq_refl). simpl in Hr. subst r.
      destruct (has_zero (map (parseUint env) toks)); cbn [negb andb];
        eexists; (split; [reflexivity|cbn [fst]; try discriminate; auto]).
    + rewrite andb_false_r. eexists. split; [reflexivity|discriminate].
  - eexists. split; [reflexivity|discriminate].
Qed.

(** [readNodeIDRecord], called with an empty vector, accepts a line
    exactly when each of its tokens passes [isValidNodeID] and the line is
    not made of separators only; the record is then the values of the
    tokens. *)
Theorem readNodeIDRecord_accepts (f : FILE) (buf : string) (f' : FILE) :
  fgets 1024 f = (Some buf, f') ->
  let toks := splitString (chomp buf) DEFAULT_DELIM in
  (fst (fst (readNodeIDRecord env f [])) = true <->
   forallb (isValidNodeID env) toks = true /\ (toks = [] -> strlen (chomp buf) = O)) /\
  (fst (fst (readNodeIDRecord env f [])) = true ->
   readNodeIDRecord env f [] = (true, map (parseUint env) toks, f')).
Proof.
  intros Hg. cbv zeta.
  destruct (readNodeIDRecord_line f buf f' Hg) as (r & Heq & Hr).
  rewrite Heq in *. cbn [fst] in *. split.
  - apply accepted_iff.
  - intros Hacc. rewrite Hacc, (Hr Hacc). reflexivity.
Qed.

(** A zero that is already in the vector makes [readNodeIDRecord] fail,
    whatever the stream holds: the check runs over the whole vector, not
    over the values just read. *)
Theorem readNodeIDRecord_stale_zero (f : FILE) (ret : list Z) :
  has_zero ret = true -> fst (fst (readNodeIDRecord env f ret)) = false.
Proof.
  intros Hz. unfold readNodeIDRecord.
  destruct (readUintRecord env f ret) as [[b r] f1] eqn:Er.
  destruct (readUintRecord_spec env _ _ _ _ _ Er) as (_ & _ & vals & -> & _).
  destruct b; cbn [negb]; [|reflexivity].
  now rewrite has_zero_app, Hz.
Qed.

End RecordsAccepted.

Lemma readUintRecord_accepts_witness :
  readUintRecord lp64_C (stream_of ("7,0 12" ++ nl)) [5]
  = (true, [5; 7; 0; 12], stream_of EmptyString).
Proof.
  apply (readUintRecord_accepts lp64_C (stream_of ("7,0 12" ++ nl)) [5]
           ("7,0 12" ++ nl) (stream_of EmptyString) eq_refl).
  reflexivity.
Defined.

Lemma readNodeIDRecord_accepts_witness :
  fst (fst (readNodeIDRecord lp64_C (stream_of ("7,0 12" ++ nl)) [])) = true <->
  forallb (isValidNodeID lp64_C) ["7"; "0"; "12"] = true /\
  (["7"; "0"; "12"] = [] -> strlen "7,0 12" = O).
Proof.
  exact (proj1 (readNodeIDRecord_accepts lp64_C (stream_of ("7,0 12" ++ nl))
                  ("7,0 12" ++ nl) (stream_of EmptyString) eq_refl)).
Defined.

Lemma readNodeIDRecord_stale_zero_witness :
  fst (fst (readNodeIDRecord lp64_C (stream_of ("1 2" ++ nl)) [3; 0])) = false.
Proof.
  apply (readNodeIDRecord_stale_zero lp64_C (stream_of ("1 2" ++ nl)) [3; 0]).
  reflexivity.
Defined.

(** *** What ends a block, and how long a record can be *)

Lemma readNodeIDRecord_at_null (env : Env) (f f' : FILE) :
  fgets 1024 f = (None, f') ->
  readNodeIDRecord env f [] = (feof f', [], f').
Proof.
  intros Hg. unfold readNodeIDRecord, readUintRecord. rewrite Hg.
  now destruct (feof f').
Qed.

(** The loop of [readNodeset] returns in a pass exactly when [fgets]
    reports the end of the file, or delivers a line that is empty once its
    newline is removed (a line that begins with a NUL counts as empty).
    Nothing else ends a block: not a read error, not a line of separators. *)
Theorem readNodeset_body_returns_iff (env : Env) (w : Z) (st : loop_state) :
  (exists st', readNodeset_body env w st = Return st') <->
  (exists f', fgets 1024 (inFile st) = (None, f') /\ feof f' = true) \/
  (exists buf f', fgets 1024 (inFile st) = (Some buf, f') /\ strlen (chomp buf) = O).
Proof.
  unfold readNodeset_body.
  destruct (fgets 1024 (inFile st)) as [[buf|] f'] eqn:Hg.
  - destruct (readNodeIDRecord_line env _ _ _ Hg) as (r & Heq & Hr).
    rewrite Heq in *. cbn [fst] in Hr.
    remember (splitString (chomp buf) DEFAULT_DELIM) as toks eqn:Ht.
    split.
    + intros [st' H]. right. exists buf, f'. split; [reflexivity|].
      destruct (forallb (isValidNodeID env) toks
                && ((0 <? List.length toks)%nat || (strlen (chomp buf) =? 0)%nat))
        eqn:Hacc; cbn [negb] in H; [|discriminate].
      specialize (Hr eq_refl). subst r.
      apply accepted_iff in Hacc. destruct Hacc as [_ Hsep]. apply Hsep.
      destruct toks as [|t toks']; [reflexivity|].
      cbn [map List.length Nat.eqb] in H.
      destruct (Z.of_nat (S (List.length (map (parseUint env) toks'))) =? w);
        discriminate.
    + intros [(f2 & Hf2 & _)|(buf' & f2 & Hf2 & Hlen)]; [discriminate|].
      injection Hf2 as <- <-.
      pose proof (strlen_zero_splitString _ Hlen) as Hs.
      rewrite <- Ht in Hs. subst toks. rewrite Hs in *. rewrite Hlen in *.
      cbn in Hr. specialize (Hr eq_refl). subst r. cbn. eauto.
  - rewrite (readNodeIDRecord_at_null env _ _ Hg). split.
    + intros [st' H]. left. exists f'. split; [reflexivity|].
      destruct (feof f'); [reflexivity|discriminate].
    + intros [(f2 & Hf2 & Hfe)|(buf' & f2 & Hf2 & _)]; [|discriminate].
      injection Hf2 as <-. rewrite Hfe. cbn. eauto.
Qed.

Lemma fgets_scan_length (room : nat) (evs : list input_event) :
  forall s e rest, fgets_scan room evs = (s, e, rest) ->
                   (String.length s <= room)%nat.
Proof.
  revert evs. induction room as [|room IH]; intros evs s e rest H; simpl in H.
  - injection H as <- _ _. simpl. lia.
  - destruct evs as [|[c|] evs].
    + injection H as <- _ _. simpl. lia.
    + destruct (Ascii.eqb c LF).
      * injection H as <- _ _. simpl. lia.
      * destruct (fgets_scan room evs) as [[s1 e1] r1] eqn:E.
        injection H as <- _ _. specialize (IH _ _ _ _ E). simpl. lia.
    + injection H as <- _ _. simpl. lia.
Qed.

Lemma fgets_scan_filled (room : nat) (evs : list input_event) (s : string)
    (rest : list input_event) :
  fgets_scan (S room) evs = (s, Filled, rest) -> (1 <= String.length s)%nat.
Proof.
  cbn [fgets_scan]. destruct evs as [|[c|] evs]; try discriminate.
  destruct (Ascii.eqb c LF).
  - intros H. injection H as <- _. simpl. lia.
  - destruct (fgets_scan room evs) as [[s1 e1] r1].
    intros H. injection H as <- _ _. simpl. lia.
Qed.

Lemma fgets_length (f : FILE) (buf : string) (f' : FILE) :
  fgets 1024 f = (Some buf, f') -> (1 <= String.length buf <= 1023)%nat.
Proof.
  unfold fgets. destruct (eof_ind f); [discriminate|].
  destruct (fgets_scan (1024 - 1) (pending f)) as [[s e] rest] eqn:Es.
  pose proof (fgets_scan_length _ _ _ _ _ Es) as Hlen.
  assert (Hne : e = Filled -> (1 <= String.length s)%nat).
  { intros ->. change (1024 - 1)%nat with (S 1022) in Es.
    exact (fgets_scan_filled _ _ _ _ Es). }
  change (1024 - 1)%nat with 1023%nat in Hlen.
  destruct e.
  - intros H. injection H as <- _. specialize (Hne eq_refl). lia.
  - destruct (tail f); [|discriminate].
    destruct s; [discriminate|]. intros H. injection H as <- _. simpl in *. lia.
  - discriminate.
Qed.

Lemma c_str_length (s : string) : (String.length (c_str s) <= String.length s)%nat.
Proof.
  induction s as [|c s IH]; simpl; [lia|].
  destruct (Ascii.eqb c NUL); simpl; lia.
Qed.

Lemma substring_length (n : nat) (s : string) :
  (String.length (substring 0 n s) <= String.length s)%nat.
Proof.
  revert s. induction n as [|n IH]; intros [|c s]; simpl; try lia.
  specialize (IH s). lia.
Qed.

Lemma chomp_length (buf : string) : (strlen (chomp buf) <= String.length buf)%nat.
Proof.
  unfold chomp, strlen.
  destruct (String.get (String.length (c_str buf) - 1) buf) as [c|].
  - destruct ((0 <? String.length (c_str buf))%nat && Ascii.eqb c LF).
    + etransitivity; [apply c_str_length|apply substring_length].
    + apply c_str_length.
  - apply c_str_length.
Qed.

Lemma splitString_loop_at_end (fuel : nat) (delim : string) (ret r : list string) :
  splitString_loop fuel delim EmptyString ret = Some r -> r = ret.
Proof. destruct fuel; simpl; [discriminate|]. now intros [= <-]. Qed.

(** A token needs a character of its own and, unless it is the last, a
    delimiter after it. *)
Lemma splitString_loop_count (delim : string) :
  forall fuel str ret r,
    splitString_loop fuel delim str ret = Some r ->
    (2 * List.length r <= 2 * List.length ret + String.length str + 1)%nat.
Proof.
  induction fuel as [|fuel IH]; intros str ret r H; [discriminate|].
  rewrite splitString_loop_S in H.
  pose proof (skip_delim_length delim str) as Hskip.
  destruct (skip_delim delim str) as [|c s1] eqn:Es.
  - injection H as <-. lia.
  - pose proof (skip_delim_head _ _ _ _ Es) as Hc.
    destruct (scan_word delim (String c s1)) as [wd str'] eqn:Ew.
    destruct (scan_word_spec _ _ _ _ Ew) as (Hsplit & _ & _).
    assert (Hwd : (1 <= String.length wd)%nat).
    { simpl in Ew. rewrite Hc in Ew. destruct (scan_word delim s1).
      injection Ew as <- _. simpl. lia. }
    apply (f_equal String.length) in Hsplit. rewrite length_append in Hsplit.
    destruct str' as [|d str''].
    + apply splitString_loop_at_end in H. subst r.
      rewrite length_app. simpl in *. lia.
    + apply IH in H. rewrite length_app in H. simpl in *. lia.
Qed.

(** One call of [readUintRecord] appends at most 512 numbers: a line has
    at most 1023 characters. So the 32-bit counters of its loops cannot
    wrap. *)
Theorem readUintRecord_at_most_512 (env : Env) (f : FILE) (ret : list Z)
    (b : bool) (ret' : list Z) (f' : FILE) :
  readUintRecord env f ret = (b, ret', f') ->
  (List.length ret' <= List.length ret + 512)%nat.
Proof.
  unfold readUintRecord.
  destruct (fgets 1024 f) as [[buf|] f1] eqn:Hg.
  - pose proof (fgets_length _ _ _ Hg) as Hbuf.
    pose proof (chomp_length buf) as Hline.
    destruct (splitString_returns (chomp buf) DEFAULT_DELIM) as (r & Hr & Heq).
    apply splitString_loop_count in Hr. simpl in Hr. fold (strlen (chomp buf)) in Hr.
    rewrite Heq.
    destruct ((0 <? strlen (chomp buf))%nat && (List.length r =? 0)%nat).
    + intros H. injection H as _ <- _. lia.
    + destruct (push_uints env r ret) as [b1 r1] eqn:Ep.
      intros H. injection H as _ <- _.
      apply push_uints_length in Ep. lia.
  - destruct (feof f1); simpl; intros H; injection H as _ <- _; lia.
Qed.

Lemma readUintRecord_at_most_512_witness :
  (List.length [5; 7; 0; 12] <= List.length [5] + 512)%nat.
Proof.
  apply (readUintRecord_at_most_512 lp64_C (stream_of ("7,0 12" ++ nl)) [5]
           true [5; 7; 0; 12] (stream_of EmptyString)).
  reflexivity.
Defined.

(* ================================================================= *)
(** ** Further properties of the dataset reader *)

Lemma readNodeset_returns_at_eof_witness :
  exists st,
    readNodeset lp64_C (S (List.length (pending (stream_of ("1 2" ++ nl ++ "x")))))
                (default_command "add-arcs" RT_NONE)
                (stream_of ("1 2" ++ nl ++ "x")) [] 2 = Some st.
Proof.
  apply (readNodeset_returns_at_eof lp64_C (default_command "add-arcs" RT_NONE)
           (stream_of ("1 2" ++ nl ++ "x")) [] 2).
  reflexivity.
Defined.

Lemma block_no_terminator (env : Env) (w : Z) (f : FILE)
    (lines : list line_kind) (f_end : FILE) :
  block env w f lines f_end -> ~ In Terminator lines.
Proof.
  induction 1 as [|f k f' lines f_end Hc Hk Hb IH]; [intros []|].
  intros [Heq|Hin]; [now apply Hk|now apply IH].
Qed.

(** The lines of a block are well-formed ones followed by nothing, or by
    a malformed line and whatever comes after it. *)
Lemma leading_records_split (lines : list line_kind) :
  ~ In Terminator lines ->
  exists post,
    lines = map Wellformed (leading_records lines) ++ post /\
    ((post = [] /\ first_malformed lines = None) \/
     (exists post', post = Malformed :: post' /\
                    first_malformed lines <> None)).
Proof.
  induction lines as [|k lines IH]; intros Hnt.
  - exists []. split; [reflexivity|]. left. now split.
  - destruct k as [| |r].
    + elim Hnt. now left.
    + exists (Malformed :: lines). split; [reflexivity|]. right.
      exists lines. split; [reflexivity|discriminate].
    + destruct IH as (post & Hl & Hp); [intros H; apply Hnt; now right|].
      exists post. split; [simpl; now rewrite <- Hl|].
      destruct Hp as [[-> Hfm]|(post' & -> & Hfm)].
      * left. split; [reflexivity|]. simpl. now rewrite Hfm.
      * right. exists post'. split; [reflexivity|]. simpl.
        destruct (first_malformed lines); [discriminate|contradiction].
Qed.

Section DatasetReaderMore.

Variable env : Env.

(** Of a block, [readNodeset] keeps the records of the well-formed lines
    that come before the first malformed line, appended to what the dataset
    held, in the order of the stream; the lines after a malformed one are read
    but not kept. [ok] is returned true exactly when no line is malformed, and
    the line counter ends one above the number of lines. *)
Theorem readNodeset_block_dataset (this : CliCommand) (f : FILE)
    (ds : list (list Z)) (w : Z) (lines : list line_kind) (f_end : FILE) :
  block env w f lines f_end ->
  exists st recs post,
    readNodeset env (S (List.length lines)) this f ds w = Some st /\
    lines = map Wellformed recs ++ post /\
    (post = [] \/ exists post', post = Malformed :: post') /\
    dataset st = ds ++ recs /\
    (ok st = true <-> post = []) /\
    lineno st = to_uint32 (Z.of_nat (List.length lines) + 1) /\
    inFile st = f_end.
Proof.
  intros Hb. unfold readNodeset.
  rewrite (readNodeset_loop_block env w f lines f_end Hb) by reflexivity.
  rewrite block_result_init, advance_from_one.
  destruct (leading_records_split lines (block_no_terminator _ _ _ _ _ Hb))
    as (post & Hl & Hp).
  eexists. exists (leading_records lines), post.
  split; [reflexivity|]. split; [exact Hl|].
  destruct Hp as [[-> Hfm]|(post' & -> & Hfm)].
  - rewrite Hfm. cbn [dataset ok lineno inFile]. repeat split; auto.
  - destruct (first_malformed lines) as [i|]; [|contradiction].
    cbn [dataset ok lineno inFile]. repeat split; eauto; discriminate.
Qed.

Lemma status_inv_init (this : CliCommand) (f : FILE) (ds : list (list Z)) :
  status_inv env this (readNodeset_init this f ds).
Proof. unfold status_inv, readNodeset_init, report. cbn. repeat split. left. auto. Qed.

Lemma status_inv_body (this : CliCommand) (w : Z) (st : loop_state) :
  status_inv env this st ->
  match readNodeset_body env w st with
  | Return st' | Continue st' => status_inv env this st'
  end.
Proof.
  intros Hinv. rewrite readNodeset_body_classify.
  destruct (classify env w (inFile st)) as [[| |r] f'].
  - exact Hinv.
  - destruct Hinv as (Hn & Hs & Hh & Hr & Hst).
    unfold status_inv, fail_line.
    destruct Hst as [(Hok & Ha & Hl)|(Hok & k & Ha & Hl)]; rewrite Hok.
    + unfold report. cbn. rewrite Ha. repeat split; trivial.
      right. split; [reflexivity|]. exists (lineno st). split; reflexivity.
    + cbn. repeat split; trivial. right. split; [reflexivity|]. now exists k.
  - exact Hinv.
Qed.

Lemma status_inv_loop (this : CliCommand) (w : Z) :
  forall fuel st st', readNodeset_loop env fuel w st = Some st' ->
                      status_inv env this st -> status_inv env this st'.
Proof.
  induction fuel as [|fuel IH]; intros st st' H Hinv; [discriminate|].
  cbn [readNodeset_loop] in H. pose proof (status_inv_body this w st Hinv) as Hb.
  destruct (readNodeset_body env w st) as [st1|st1].
  - exact (IH _ _ H Hb).
  - now injection H as <-.
Qed.

(** Whatever the stream, a call of [readNodeset] that returns has assigned
    the initial success message and at most one ERROR message: with [ok] true
    the status is the success message, with [ok] false it is the one ERROR
    message. Name, synopsis, help text and return type of the command are as
    before. *)
Theorem readNodeset_status (fuel : nat) (this : CliCommand) (f : FILE)
    (ds : list (list Z)) (w : Z) (st : loop_state) :
  readNodeset env fuel this f ds w = Some st ->
  getName (self st) = getName this /\
  getSynopsis (self st) = getSynopsis this /\
  getHelpText (self st) = getHelpText this /\
  getReturnType (self st) = getReturnType this /\
  ((ok st = true /\ assigned st = [cliSuccess nl] /\
    lastStatusMessage (self st) = cliSuccess nl) \/
   (ok st = false /\ exists k,
      assigned st = [cliSuccess nl; line_error env k] /\
      lastStatusMessage (self st) = line_error env k)).
Proof.
  intros H. exact (status_inv_loop this w _ _ _ H (status_inv_init this f ds)).
Qed.

End DatasetReaderMore.

Lemma readNodeset_block_dataset_witness :
  exists st recs post,
    readNodeset lp64_C 5 (default_command "add-arcs" RT_NONE)
                (stream_of (unlines ["1 2"; "1 2 3"; "4 x"; "5 6"; EmptyString])) [[9; 9]] 2
    = Some st /\
    [Wellformed [1; 2]; Malformed; Malformed; Wellformed [5; 6]]
    = map Wellformed recs ++ post /\
    (post = [] \/ exists post', post = Malformed :: post') /\
    dataset st = [[9; 9]] ++ recs /\
    (ok st = true <-> post = []) /\
    lineno st = to_uint32 (Z.of_nat 4 + 1) /\
    inFile st = stream_of EmptyString.
Proof.
  apply (readNodeset_block_dataset lp64_C (default_command "add-arcs" RT_NONE)
           (stream_of (unlines ["1 2"; "1 2 3"; "4 x"; "5 6"; EmptyString]))
           [[9; 9]] 2
           [Wellformed [1; 2]; Malformed; Malformed; Wellformed [5; 6]]
           (stream_of EmptyString)).
  repeat (eapply block_line; [vm_compute; reflexivity|discriminate|]).
  apply block_end. vm_compute. reflexivity.
Defined.

Lemma readNodeset_status_witness :
  getName (self too_wide_result) = getName (default_command "add-arcs" RT_NONE) /\
  getSynopsis (self too_wide_result) = getSynopsis (default_command "add-arcs" RT_NONE) /\
  getHelpText (self too_wide_result) = getHelpText (default_command "add-arcs" RT_NONE) /\
  getReturnType (self too_wide_result)
  = getReturnType (default_command "add-arcs" RT_NONE) /\
  ((ok too_wide_result = true /\ assigned too_wide_result = [cliSuccess nl] /\
    lastStatusMessage (self too_wide_result) = cliSuccess nl) \/
   (ok too_wide_result = false /\ exists k,
      assigned too_wide_result = [cliSuccess nl; line_error lp64_C k] /\
      lastStatusMessage (self too_wide_result) = line_error lp64_C k)).
Proof.
  apply (readNodeset_status lp64_C 2 (default_command "add-arcs" RT_NONE)
           (stream_of (unlines ["1 2 3"; EmptyString])) [] 2 too_wide_result).
  reflexivity.
Defined.

(** *** Streams that break *)

Lemma fgets_broken_tail (f : FILE) :
  tail f = Broken -> eof_ind f = false ->
  forall r f', fgets 1024 f = (r, f') ->
    tail f' = Broken /\ eof_ind f' = false /\
    ((List.length (pending f') < List.length (pending f))%nat \/
     (f = broken_stream /\ r = None /\ f' = broken_stream)).
Proof.
  intros Ht He r f' H. unfold fgets in H. rewrite He in H.
  destruct (fgets_scan (1024 - 1) (pending f)) as [[s e] rest] eqn:Es.
  pose proof (fgets_scan_consumes _ _ _ _ _ Es) as Hc.
  destruct e.
  - injection H as <- <-. cbn. repeat split; trivial. left. apply Hc. simpl. lia.
  - rewrite Ht in H. injection H as <- <-. cbn. repeat split; trivial.
    destruct f as [[|ev evs] tl e]; cbn in *; subst.
    + right. unfold fgets_scan in Es. cbn in Es. now injection Es as <- _.
    + left. lia.
  - injection H as <- <-. cbn. repeat split; trivial. now left.
Qed.

Section BrokenStreams.

Variable env : Env.

Lemma readNodeset_loop_hangs (w : Z) :
  forall n st,
    tail (inFile st) = Broken -> eof_ind (inFile st) = false ->
    (List.length (pending (inFile st)) <= n)%nat ->
    readNodeset_loop env n w st = None ->
    forall fuel, readNodeset_loop env fuel w st = None.
Proof.
  induction n as [|n IH]; intros st Ht He Hlen Hnone fuel.
  - apply readNodeset_loop_broken.
    destruct (inFile st) as [[|ev evs] tl e]; cbn in *; [now subst|lia].
  - rewrite readNodeset_loop_S, readNodeset_body_classify in Hnone.
    destruct fuel as [|fuel]; [reflexivity|].
    rewrite readNodeset_loop_S, readNodeset_body_classify.
    destruct (classify env w (inFile st)) as [k f'] eqn:Ec.
    destruct (classify_spec env _ _ _ _ Ec) as (Hf & _ & _).
    destruct (fgets 1024 (inFile st)) as [r f1] eqn:Eg. simpl in Hf. subst f1.
    destruct (fgets_broken_tail _ Ht He _ _ Eg) as (Ht' & He' & Hprog).
    assert (Hnext : forall st', inFile st' = f' ->
              readNodeset_loop env n w st' = None ->
              readNodeset_loop env fuel w st' = None).
    { intros st' Hst' Hn'. destruct Hprog as [Hlt|(_ & _ & Hbr)].
      - apply (IH st'); rewrite ?Hst'; trivial. lia.
      - apply readNodeset_loop_broken. now rewrite Hst'. }
    destruct k as [| |record]; [discriminate| |].
    + apply Hnext; [apply inFile_fail_line|exact Hnone].
    + apply Hnext; [reflexivity|exact Hnone].
Qed.

(** On a stream that ends in a permanent read error, [readNodeset] either
    returns within as many passes as there are pending bytes, or never: once
    the data before the break is used up without a terminator, the loop runs
    on for ever. *)
Theorem readNodeset_hangs_after_break (this : CliCommand) (f : FILE)
    (ds : list (list Z)) (w : Z) :
  tail f = Broken -> eof_ind f = false ->
  readNodeset env (List.length (pending f)) this f ds w = None ->
  forall fuel, readNodeset env fuel this f ds w = None.
Proof.
  intros Ht He Hnone fuel. unfold readNodeset in *.
  apply (readNodeset_loop_hangs w (List.length (pending f))); trivial.
Qed.

End BrokenStreams.

Lemma readNodeset_hangs_after_break_witness :
  readNodeset lp64_C 1000 (default_command "add-arcs" RT_NONE)
              breaking_stream [] 2 = None.
Proof.
  apply (readNodeset_hangs_after_break lp64_C (default_command "add-arcs" RT_NONE)
           breaking_stream [] 2); reflexivity.
Defined.

(* ================================================================= *)
(** ** Status messages and the buffer they are built in *)





(* ================================================================= *)
(** ** The registry *)

(** Every command of a registry of fewer than 2^32 commands is found under
    its own name: the lookup returns a command of that name, never the null
    pointer. *)
Theorem findCommand_finds_registered (cli : Cli) (c : CliCommand) :
  Z.of_nat (List.length (commands cli)) < 2 ^ 32 ->
  In c (commands cli) ->
  exists c', findCommand (S (List.length (commands cli))) cli (getName c)
             = Some (Some c') /\ getName c' = getName c.
Proof.
  intros Hsz Hin. unfold findCommand.
  pose proof (findCommand_loop_skipn (getName c) (commands cli) Hsz
                (List.length (commands cli)) O eq_refl) as Hloop.
  cbn [Z.of_nat skipn] in Hloop. rewrite Hloop. pose proof (first_named_spec (commands cli) (getName c)) as Hs.
  destruct (first_named (commands cli) (getName c)) as [c'|].
  - destruct Hs as (i & _ & Hn & _). now exists c'.
  - now elim (Hs c Hin).
Qed.

Lemma findCommand_finds_registered_witness :
  exists c', findCommand 4 two_adds (getName add_second) = Some (Some c') /\
             getName c' = getName add_second.
Proof.
  apply (findCommand_finds_registered two_adds add_second).
  - simpl. lia.
  - right. right. left. reflexivity.
Defined.

(* ================================================================= *)
(** ** getRedirFilename *)

Lemma isspace_not_NUL (c : ascii) : isspace c = true -> Ascii.eqb c NUL = false.
Proof.
  intros H. apply Ascii.eqb_neq. intros ->. vm_compute in H. discriminate.
Qed.

Lemma redir_word_chars (s : string) :
  Forall (fun c => isspace c = false) (chars (redir_word s)) /\
  exists rest, s = (redir_word s ++ rest)%string /\
               match rest with
               | String c _ => isspace c = true
               | EmptyString => True
               end.
Proof.
  induction s as [|c s [IH1 (rest & IH2 & IH3)]]; simpl.
  - split; [constructor|]. now exists EmptyString.
  - destruct (isspace c) eqn:E; simpl.
    + split; [constructor|]. exists (String c s). now split.
    + split; [now constructor|]. exists rest. split; [now rewrite <- IH2|exact IH3].
Qed.

Lemma skip_space_spec (s : string) :
  exists lead, s = (lead ++ skip_space s)%string /\
               Forall (fun c => isspace c = true) (chars lead) /\
               match skip_space s with
               | String c _ => isspace c = false
               | EmptyString => True
               end.
Proof.
  induction s as [|c s (lead & IH1 & IH2 & IH3)]; simpl.
  - exists EmptyString. repeat split. constructor.
  - destruct (isspace c) eqn:E.
    + exists (String c lead). simpl. rewrite <- IH1. repeat split; trivial.
      constructor; assumption.
    + exists EmptyString. repeat split; trivial.
Qed.

Lemma skip_space_lead (lead s : string) :
  Forall (fun c => isspace c = true) (chars lead) ->
  skip_space (lead ++ s) = skip_space s.
Proof.
  induction lead as [|c lead IH]; simpl; intros H; [reflexivity|].
  inversion H as [|? ? Hc Hl]; subst. rewrite Hc. now apply IH.
Qed.

Lemma c_str_append (s t : string) :
  Forall (fun c => c <> NUL) (chars s) -> c_str (s ++ t) = (s ++ c_str t)%string.
Proof.
  induction s as [|c s IH]; simpl; intros H; [reflexivity|].
  inversion H as [|? ? Hc Hs]; subst. apply Ascii.eqb_neq in Hc.
  rewrite Hc, (IH Hs). reflexivity.
Qed.

Lemma redir_word_word (wd tail : string) :
  Forall (fun c => isspace c = false) (chars wd) ->
  match tail with
  | String c _ => isspace c = true
  | EmptyString => True
  end ->
  redir_word (wd ++ tail) = wd.
Proof.
  intros Hw Ht. induction wd as [|c wd IH]; simpl.
  - destruct tail; [reflexivity|]. simpl. now rewrite Ht.
  - inversion Hw as [|? ? Hc Hr]; subst. rewrite Hc, (IH Hr). reflexivity.
Qed.

Lemma append_empty_r (s : string) : (s ++ EmptyString)%string = s.
Proof. induction s as [|c s IH]; simpl; [reflexivity|now rewrite IH]. Qed.

(** [getRedirFilename] returns the first word of its argument: leading
    white space is skipped, and the word ends before the next white-space
    character or the end of the string. *)
Theorem getRedirFilename_first_word (lead wd rest : string) :
  Forall (fun c => isspace c = true) (chars lead) ->
  wd <> EmptyString ->
  Forall (fun c => isspace c = false /\ c <> NUL) (chars wd) ->
  match rest with
  | String c _ => isspace c = true \/ c = NUL
  | EmptyString => True
  end ->
  getRedirFilename (lead ++ wd ++ rest) = wd.
Proof.
  intros Hlead Hne Hwd Hrest. unfold getRedirFilename.
  assert (Hl0 : Forall (fun c => c <> NUL) (chars lead)).
  { rewrite Forall_forall in *. intros c Hc. apply Ascii.eqb_neq.
    apply isspace_not_NUL. now apply Hlead. }
  assert (Hw0 : Forall (fun c => c <> NUL) (chars wd)).
  { rewrite Forall_forall in *. intros c Hc. now apply Hwd. }
  assert (Hw1 : Forall (fun c => isspace c = false) (chars wd)).
  { rewrite Forall_forall in *. intros c Hc. now apply Hwd. }
  rewrite (c_str_append _ _ Hl0), (c_str_append _ _ Hw0).
  rewrite (skip_space_lead _ _ Hlead).
  destruct wd as [|c wd]; [contradiction|].
  assert (Hc : isspace c = false) by (now inversion Hw1).
  change ((String c wd ++ c_str rest)%string) with (String c (wd ++ c_str rest)).
  cbn [skip_space]. rewrite Hc.
  change (String c (wd ++ c_str rest)) with ((String c wd ++ c_str rest)%string).
  apply redir_word_word; [exact Hw1|].
  destruct rest as [|d rest]; [exact I|]. simpl.
  destruct (Ascii.eqb d NUL) eqn:Ed; [exact I|].
  destruct Hrest as [Hd|Hd]; [exact Hd|].
  apply Ascii.eqb_neq in Ed. contradiction.
Qed.

Lemma getRedirFilename_first_word_witness :
  getRedirFilename (String TAB " " ++ "out.txt" ++ " 2 3") = "out.txt".
Proof.
  apply (getRedirFilename_first_word (String TAB " ") "out.txt" " 2 3").
  - repeat constructor.
  - discriminate.
  - repeat (apply Forall_cons; [split; [reflexivity|discriminate]|]).
    apply Forall_nil.
  - left. reflexivity.
Defined.

Lemma getRedirFilename_word_alone (wd : string) :
  Forall (fun c => isspace c = false) (chars wd) ->
  Forall (fun c => c <> NUL) (chars wd) ->
  getRedirFilename wd = wd.
Proof.
  intros Hns Hnn. unfold getRedirFilename. rewrite (c_str_id _ Hnn).
  destruct wd as [|c wd]; [reflexivity|].
  assert (Hc : isspace c = false) by (now inversion Hns).
  cbn [skip_space]. rewrite Hc.
  rewrite <- (append_empty_r (String c wd)) at 1.
  now apply redir_word_word.
Qed.

(** The string returned by [getRedirFilename] holds no white space, and
    the function gives it back unchanged; it is empty exactly when the
    argument holds nothing but white space. *)
Theorem getRedirFilename_shape (str : string) :
  (forall c, In c (chars (getRedirFilename str)) -> isspace c = false /\ c <> NUL) /\
  getRedirFilename (getRedirFilename str) = getRedirFilename str /\
  (getRedirFilename str = EmptyString <->
   Forall (fun c => isspace c = true) (chars (c_str str))).
Proof.
  destruct (skip_space_spec (c_str str)) as (lead & Hs & Hlead & Hhead).
  destruct (redir_word_chars (skip_space (c_str str))) as (Hns & tl & Hw & Htl).
  change (redir_word (skip_space (c_str str))) with (getRedirFilename str) in *.
  set (r := getRedirFilename str) in *.
  assert (Hnn : Forall (fun c => c <> NUL) (chars r)).
  { pose proof (c_str_no_NUL str) as H0. rewrite Hs, chars_append in H0.
    apply Forall_app in H0. destruct H0 as [_ H0].
    rewrite Hw, chars_append in H0. now apply Forall_app in H0. }
  split; [|split].
  - intros c Hc. rewrite Forall_forall in Hns, Hnn. split; auto.
  - apply getRedirFilename_word_alone; assumption.
  - change (getRedirFilename str) with r. subst r. split.
    + intros Hr. rewrite Hs.
      destruct (skip_space (c_str str)) as [|c s1] eqn:Ek.
      * now rewrite chars_append, app_nil_r.
      * rewrite Hr in Hw. simpl in Hw. subst tl. congruence.
    + intros Hall.
      assert (Hk : skip_space (c_str str) = EmptyString).
      { clear - Hall. induction (c_str str) as [|c s IH]; [reflexivity|].
        simpl. inversion Hall as [|? ? Hc Hs]; subst. rewrite Hc. now apply IH. }
      unfold getRedirFilename. now rewrite Hk.
Qed.

(* ================================================================= *)
(** ** getLine *)




(* ================================================================= *)
(** ** Tokens with a leading zero *)

Lemma isdigit_not_x (c : ascii) : isdigit c = true -> is_x c = false.
Proof.
  intros H. apply isdigit_code in H. unfold is_x.
  apply orb_false_iff. split; apply Z.eqb_neq; lia.
Qed.

(** A token of decimal digits that begins with 0 is converted in base 8,
    and only as far as its digits are octal digits: what follows the first
    8 or 9 is ignored. *)
Theorem parseUint_leading_zero (env : Env) (s : string) :
  isValidUint s = true -> leading_zero s = true ->
  parseUint env s =
  if ULONG_MAX (abi env) <? accumulate 8 0 s then 2 ^ 32 - 1
  else accumulate 8 0 s mod 2 ^ 32.
Proof.
  intros Hv Hz. destruct (isValidUint_inv s Hv) as (c & r & -> & Hd).
  unfold parseUint, strtoul. rewrite (all_digits_c_str _ Hd).
  destruct (all_digits_cons _ _ Hd) as [Hc Hr].
  cbn [skip_space]. rewrite (isdigit_not_space c Hc).
  pose proof (isdigit_code c Hc) as Hcode.
  simpl in Hz. unfold take_sign.
  replace (code c =? 45) with false by (symmetry; apply Z.eqb_neq; lia).
  replace (code c =? 43) with false by (symmetry; apply Z.eqb_neq; lia).
  assert (Hp : take_prefix 0 (String c r) = (8, String c r)).
  { unfold take_prefix. rewrite Hz. destruct r as [|x [|h r']]; try reflexivity.
    destruct (all_digits_cons _ _ Hr) as [Hx _].
    rewrite (isdigit_not_x x Hx). reflexivity. }
  rewrite Hp.
  destruct (ULONG_MAX (abi env) <? accumulate 8 0 (String c r)); [|reflexivity].
  now destruct (abi env).
Qed.

Lemma parseUint_leading_zero_witness :
  parseUint lp64_C "0129" = 10.
Proof. exact (parseUint_leading_zero lp64_C "0129" eq_refl eq_refl). Defined.

(* ================================================================= *)
(** ** How much of the stream one record takes *)

Lemma fgets_scan_consumed (room : nat) (evs : list input_event) :
  forall s e rest, fgets_scan room evs = (s, e, rest) ->
    (List.length evs <= List.length rest + room)%nat.
Proof.
  revert evs. induction room as [|room IH]; intros evs s e rest H.
  - simpl in H. injection H as _ _ <-. lia.
  - cbn [fgets_scan] in H. destruct evs as [|[c|] evs].
    + injection H as _ _ <-. simpl. lia.
    + destruct (Ascii.eqb c LF).
      * injection H as _ _ <-. simpl. lia.
      * destruct (fgets_scan room evs) as [[s1 e1] r1] eqn:E.
        injection H as _ _ <-. specialize (IH _ _ _ _ E). simpl. lia.
    + injection H as _ _ <-. simpl. lia.
Qed.

(** One call of [readUintRecord] takes at most 1023 bytes from the
    stream and never puts any back: a longer line is read in pieces, each
    piece as a record of its own. *)
Theorem readUintRecord_takes_at_most_1023 (env : Env) (f : FILE) (ret : list Z) :
  let f' := snd (readUintRecord env f ret) in
  (List.length (pending f') <= List.length (pending f)
   <= List.length (pending f') + 1023)%nat.
Proof.
  cbv zeta.
  destruct (readUintRecord env f ret) as [[b r] f'] eqn:Er.
  destruct (readUintRecord_spec env _ _ _ _ _ Er) as (-> & _ & _). cbn [snd].
  unfold fgets. destruct (eof_ind f); [cbn; lia|].
  destruct (fgets_scan (1024 - 1) (pending f)) as [[s e] rest] eqn:Es.
  pose proof (fgets_scan_consumed _ _ _ _ _ Es) as Hc.
  pose proof (fgets_scan_consumes _ _ _ _ _ Es) as Hd.
  change (1024 - 1)%nat with 1023%nat in Hc.
  destruct e; cbn [snd pending].
  - specialize (Hd ltac:(simpl; lia)). lia.
  - destruct Hd as [-> _]. destruct (tail f); [destruct s|]; cbn; simpl in Hc; lia.
  - lia.
Qed.

(* ================================================================= *)
(** ** Widths that no record has, and blocks read one after the other *)

Lemma first_malformed_In (lines : list line_kind) :
  match first_malformed lines with
  | Some _ => In Malformed lines
  | None => ~ In Malformed lines
  end.
Proof.
  induction lines as [|k lines IH]; simpl; [tauto|].
  destruct k as [| |r]; simpl; [|now left|];
    destruct (first_malformed lines); simpl; try tauto;
    intros [H|H]; try discriminate; contradiction.
Qed.

Lemma first_malformed_None (lines : list line_kind) :
  first_malformed lines = None <-> ~ In Malformed lines.
Proof.
  pose proof (first_malformed_In lines) as H.
  destruct (first_malformed lines); split; try tauto; try discriminate.
Qed.

Section MoreBlocks.

Variable env : Env.

Lemma line_token_count (f : FILE) (buf : string) (f' : FILE) :
  fgets 1024 f = (Some buf, f') ->
  (List.length (splitString (chomp buf) DEFAULT_DELIM) <= 512)%nat.
Proof.
  intros Hg. pose proof (fgets_length _ _ _ Hg) as Hbuf.
  pose proof (chomp_length buf) as Hline.
  destruct (splitString_returns (chomp buf) DEFAULT_DELIM) as (r & Hr & Heq).
  apply splitString_loop_count in Hr. simpl in Hr. fold (strlen (chomp buf)) in Hr.
  rewrite Heq. lia.
Qed.

Lemma classify_wellformed_width (w : Z) (f : FILE) (r : list Z) (f' : FILE) :
  classify env w f = (Wellformed r, f') -> 1 <= w <= 512.
Proof.
  unfold classify.
  destruct (fgets 1024 f) as [[buf|] f1] eqn:Hg.
  - destruct (readNodeIDRecord_line env _ _ _ Hg) as (rec & Heq & Hrec).
    pose proof (line_token_count _ _ _ Hg) as Hcount.
    rewrite Heq in *. cbn [fst] in Hrec.
    destruct (forallb (isValidNodeID env) (splitString (chomp buf) DEFAULT_DELIM)
              && ((0 <? List.length (splitString (chomp buf) DEFAULT_DELIM))%nat
                  || (strlen (chomp buf) =? 0)%nat));
      cbn [negb]; [|discriminate].
    specialize (Hrec eq_refl). subst rec. rewrite length_map.
    destruct (List.length (splitString (chomp buf) DEFAULT_DELIM) =? 0)%nat eqn:E0;
      [discriminate|].
    apply Nat.eqb_neq in E0.
    destruct (Z.of_nat (List.length (splitString (chomp buf) DEFAULT_DELIM)) =? w)
      eqn:Ew; [|discriminate].
    apply Z.eqb_eq in Ew. intros _. lia.
  - rewrite (readNodeIDRecord_at_null env _ _ Hg).
    destruct (feof f1); cbn; discriminate.
Qed.

Lemma readNodeset_loop_no_width (w : Z) :
  w < 1 \/ 512 < w ->
  forall fuel st st', readNodeset_loop env fuel w st = Some st' ->
                      dataset st' = dataset st.
Proof.
  intros Hw. induction fuel as [|fuel IH]; intros st st' H; [discriminate|].
  rewrite readNodeset_loop_S, readNodeset_body_classify in H.
  destruct (classify env w (inFile st)) as [[| |r] f'] eqn:Ec.
  - now injection H as <-.
  - rewrite (IH _ _ H). apply dataset_fail_line.
  - apply classify_wellformed_width in Ec. lia.
Qed.

(** With an expected size below 1 or above 512, which no record can
    have, [readNodeset] appends nothing: the dataset comes back as it was
    passed in. *)
Theorem readNodeset_impossible_width (fuel : nat) (this : CliCommand) (f : FILE)
    (ds : list (list Z)) (w : Z) (st : loop_state) :
  w < 1 \/ 512 < w ->
  readNodeset env fuel this f ds w = Some st ->
  dataset st = ds.
Proof.
  intros Hw H. unfold readNodeset in H.
  exact (readNodeset_loop_no_width w Hw _ _ _ H).
Qed.

(** Two calls in a row read two blocks in a row: the second call starts
    where the first one stopped, the records kept from both blocks follow each
    other in the dataset, and what the second call returns tells about the
    second block only, an error in the first block being forgotten. *)
Theorem readNodeset_two_blocks (this : CliCommand) (f : FILE)
    (ds : list (list Z)) (w : Z)
    (lines1 : list line_kind) (f1 : FILE) (lines2 : list line_kind) (f2 : FILE) :
  block env w f lines1 f1 ->
  block env w f1 lines2 f2 ->
  exists st1 st2,
    readNodeset env (S (List.length lines1)) this f ds w = Some st1 /\
    readNodeset env (S (List.length lines2)) (self st1) (inFile st1) (dataset st1) w
    = Some st2 /\
    inFile st2 = f2 /\
    dataset st2 = ds ++ leading_records lines1 ++ leading_records lines2 /\
    (ok st2 = true <-> ~ In Malformed lines2) /\
    (ok st2 = true -> lastStatusMessage (self st2) = cliSuccess nl).
Proof.
  intros Hb1 Hb2. unfold readNodeset.
  rewrite (readNodeset_loop_block env w f lines1 f1 Hb1) by reflexivity.
  rewrite block_result_init. eexists. eexists. split; [reflexivity|].
  assert (Hin : inFile match first_malformed lines1 with
                       | Some i =>
                           mkState (set_lastStatusMessage this (line_error env (advance i 1)))
                                   f1 (ds ++ leading_records lines1) false
                                   (advance (List.length lines1) 1)
                                   [cliSuccess nl; line_error env (advance i 1)]
                       | None =>
                           mkState (set_lastStatusMessage this (cliSuccess nl)) f1
                                   (ds ++ leading_records lines1) true
                                   (advance (List.length lines1) 1) [cliSuccess nl]
                       end = f1)
    by (destruct (first_malformed lines1); reflexivity).
  rewrite (readNodeset_loop_block env w f1 lines2 f2 Hb2) by exact Hin.
  rewrite block_result_init. split; [reflexivity|].
  rewrite <- first_malformed_None.
  destruct (first_malformed lines1), (first_malformed lines2);
    cbn [inFile dataset ok self set_lastStatusMessage lastStatusMessage];
    rewrite <- app_assoc; repeat split; trivial; discriminate.
Qed.

End MoreBlocks.

Lemma readNodeset_impossible_width_witness :
  dataset too_wide_result = [].
Proof.
  apply (readNodeset_impossible_width lp64_C 2 (default_command "add-arcs" RT_NONE)
           (stream_of (unlines ["1 2 3"; EmptyString])) [] 0 too_wide_result).
  - left. lia.
  - reflexivity.
Defined.

Lemma readNodeset_two_blocks_witness :
  exists st1 st2,
    readNodeset lp64_C 3 (default_command "add-arcs" RT_NONE)
                (stream_of (unlines ["1 2"; "x"; EmptyString; "3 4"; EmptyString])) [] 2
    = Some st1 /\
    readNodeset lp64_C 2 (self st1) (inFile st1) (dataset st1) 2 = Some st2 /\
    inFile st2 = stream_of EmptyString /\
    dataset st2 = [] ++ leading_records [Wellformed [1; 2]; Malformed]
                     ++ leading_records [Wellformed [3; 4]] /\
    (ok st2 = true <-> ~ In Malformed [Wellformed [3; 4]]) /\
    (ok st2 = true -> lastStatusMessage (self st2) = cliSuccess nl).
Proof.
  apply (readNodeset_two_blocks lp64_C (default_command "add-arcs" RT_NONE)
           (stream_of (unlines ["1 2"; "x"; EmptyString; "3 4"; EmptyString])) [] 2
           [Wellformed [1; 2]; Malformed]
           (stream_of (unlines ["3 4"; EmptyString]))
           [Wellformed [3; 4]] (stream_of EmptyString)).
  - repeat (eapply block_line; [vm_compute; reflexivity|discriminate|]).
    apply block_end. vm_compute. reflexivity.
  - repeat (eapply block_line; [vm_compute; reflexivity|discriminate|]).
    apply block_end. vm_compute. reflexivity.
Defined.
